(** * Stock ledger and movement engine of the inventory application

    A shallow embedding of [src/context/InventoryContext.tsx] (the reducer
    that owns products, warehouses, the stock ledger [inventory], the
    movement log [logs] and the users), of the mock data it starts from, and
    of the UI handlers that dispatch into it.

    Conventions of the embedding:
    - quantities are modelled twice.  The reducer and its handlers are first
      written over the integers of [Z], which is what a JavaScript [number]
      holds as long as every field is filled in and every sum stays below
      2^53 in magnitude; statements over this model say so in their
      hypotheses.  The module [Js] then repeats the reducer over the values
      a [number] really takes here (integer-valued doubles with rounding,
      the infinities and NaN), and [js_reducer_refines] relates the two;
      statements about every payload or every reachable state are made over
      [Js];
    - a JavaScript array is a [list]; [arr.find] / [arr.findIndex] are
      stdpp's [list_find], which returns the first index together with the
      element stored there; [arr[i] = x] on a copy is [<[i:=x]>];
    - string comparison with [===] is decidable equality on [string];
    - [generateUUID()] and [new Date().toISOString()] are not functions of
      the state: they are read from an environment [Env], the k-th call made
      during one run of the reducer returning [uuid env k], resp.
      [now env k]. *)

From Stdlib Require Import ZArith QArith.QArith_base.
From stdpp Require Import base decidable option list strings pretty.

Local Open Scope string_scope.
Local Open Scope list_scope.
Local Open Scope Z_scope.

(** ** Data model ([src/types.ts]) *)

Record Warehouse := mkWarehouse {
  warehouse_id : string;
  warehouse_name : string;
  warehouse_location : string;
}.

Record Product := mkProduct {
  product_id : string;
  product_name : string;
  product_sku : string;
  product_category : string;
  product_price : Q;
  product_lowStockThreshold : Z;
  product_description : string;
  product_images : list string;
}.

Record InventoryItem := mkInventoryItem {
  item_productId : string;
  item_warehouseId : string;
  item_quantity : Z;
}.

Inductive LogType := ENTRADA | SALIDA | AJUSTE | CREACION.

Record LogEntry := mkLogEntry {
  log_id : string;
  log_timestamp : string;
  log_productName : string;
  log_sku : string;
  log_warehouseName : string;
  log_type : LogType;
  log_quantityChange : Z;
  log_newQuantityInWarehouse : Z;
  log_details : string;
  log_user : string;
  log_transactionId : option string;
}.

Inductive UserRole := ADMINISTRADOR | GERENTE | EMPLEADO.

Record User := mkUser {
  user_id : string;
  user_name : string;
  user_email : string;
  user_role : UserRole;
  user_password : option string;
}.

Record UserWarehouseAccess := mkAccess {
  access_userId : string;
  access_warehouseId : string;
}.

Inductive PurchaseOrderStatus := BORRADOR | EMITIDA | RECIBIDA | CANCELADA.

Record PurchaseOrderItem := mkPurchaseOrderItem {
  poitem_productId : string;
  poitem_productName : string;
  poitem_sku : string;
  poitem_quantity : Z;
  poitem_price : Q;
}.

Record PurchaseOrder := mkPurchaseOrder {
  po_id : string;
  po_orderNumber : string;
  po_supplierId : string;
  po_issuingCompanyId : string;
  po_destinationWarehouseId : string;
  po_issueDate : string;
  po_deliveryDate : string;
  po_status : PurchaseOrderStatus;
  po_items : list PurchaseOrderItem;
  po_solicitante : string;
  po_total : Q;
}.

Global Instance LogType_eq_dec : EqDecision LogType.
Proof. solve_decision. Defined.
Global Instance UserRole_eq_dec : EqDecision UserRole.
Proof. solve_decision. Defined.
Global Instance PurchaseOrderStatus_eq_dec : EqDecision PurchaseOrderStatus.
Proof. solve_decision. Defined.

(** ** The reducer state ([interface AppState]) *)

Record AppState := mkAppState {
  products : list Product;
  warehouses : list Warehouse;
  inventory : list InventoryItem;
  logs : list LogEntry;
  users : list User;
  userWarehouseAccess : list UserWarehouseAccess;
  currentUser : User;
}.

(** Object spread [{ ...x, field: v }] for the fields the reducer overrides. *)
Definition with_warehouse_id (w : Warehouse) (i : string) : Warehouse :=
  mkWarehouse i (warehouse_name w) (warehouse_location w).

Definition with_product_id (p : Product) (i : string) : Product :=
  mkProduct i (product_name p) (product_sku p) (product_category p)
    (product_price p) (product_lowStockThreshold p) (product_description p)
    (product_images p).

Definition with_user_id (u : User) (i : string) : User :=
  mkUser i (user_name u) (user_email u) (user_role u) (user_password u).

Definition with_quantity (it : InventoryItem) (q : Z) : InventoryItem :=
  mkInventoryItem (item_productId it) (item_warehouseId it) q.

Definition with_products (s : AppState) (ps : list Product) : AppState :=
  mkAppState ps (warehouses s) (inventory s) (logs s) (users s)
    (userWarehouseAccess s) (currentUser s).

Definition with_warehouses (s : AppState) (ws : list Warehouse) : AppState :=
  mkAppState (products s) ws (inventory s) (logs s) (users s)
    (userWarehouseAccess s) (currentUser s).

Definition with_products_logs (s : AppState) (ps : list Product)
    (ls : list LogEntry) : AppState :=
  mkAppState ps (warehouses s) (inventory s) ls (users s)
    (userWarehouseAccess s) (currentUser s).

Definition with_products_inventory (s : AppState) (ps : list Product)
    (inv : list InventoryItem) : AppState :=
  mkAppState ps (warehouses s) inv (logs s) (users s)
    (userWarehouseAccess s) (currentUser s).

Definition with_inventory_logs (s : AppState) (inv : list InventoryItem)
    (ls : list LogEntry) : AppState :=
  mkAppState (products s) (warehouses s) inv ls (users s)
    (userWarehouseAccess s) (currentUser s).

Definition with_users_access (s : AppState) (us : list User)
    (acc : list UserWarehouseAccess) : AppState :=
  mkAppState (products s) (warehouses s) (inventory s) (logs s) us acc
    (currentUser s).

(** ** Actions

    The first ten constructors are the members of the TypeScript union
    [Action].  The components under [src/components] also dispatch
    ['BULK_TRANSFER_STOCK'] ([BulkTransferModal.handleConfirmTransfer]) and
    ['UPDATE_PURCHASE_ORDER'] ([PurchaseOrdersView.handleStatusChange]);
    [OTHER_ACTION] stands for any remaining tag (['LOGIN'], ['LOGOUT'],
    ['ADD_SUPPLIER'], ...).  None of these has a [case] in the reducer. *)

Record BulkItem := mkBulkItem {
  bulk_productId : string;
  bulk_quantity : Z;
}.

Inductive Action :=
| ADD_PRODUCT (product : Product)
| BULK_ADD_PRODUCTS (productsToAdd : list Product)
| UPDATE_PRODUCT (product : Product)
| DELETE_PRODUCT (productId : string)
| ADJUST_STOCK (productId warehouseId : string) (quantityChange : Z)
    (type : LogType) (details : string)
| TRANSFER_STOCK (productId fromWarehouseId toWarehouseId : string)
    (quantity : Z) (details : string)
| ADD_WAREHOUSE (warehouse : Warehouse)
| ADD_USER (user : User) (warehouseIds : list string)
| UPDATE_USER (user : User) (warehouseIds : list string)
| DELETE_USER (userId : string)
| BULK_TRANSFER_STOCK (items : list BulkItem)
    (fromWarehouseId toWarehouseId : string) (details : string)
| UPDATE_PURCHASE_ORDER (purchaseOrderId : string)
    (status : PurchaseOrderStatus) (receivedInWarehouseId : option string)
| OTHER_ACTION (tag : string).

(** ** Environment: identifiers and clock *)

Record Env := mkEnv {
  uuid : nat -> string;
  now : nat -> string;
}.

(** ** Array helpers *)

(** [i => i.productId === productId && i.warehouseId === warehouseId] *)
Definition matches (productId warehouseId : string) (i : InventoryItem) : Prop :=
  item_productId i = productId ∧ item_warehouseId i = warehouseId.

Global Instance matches_dec pid wid i : Decision (matches pid wid i).
Proof. unfold matches. apply _. Defined.

(** [state.products.find(p => p.id === productId)] *)
Definition find_product (ps : list Product) (productId : string) : option Product :=
  snd <$> list_find (λ p, product_id p = productId) ps.

(** [state.warehouses.find(w => w.id === warehouseId)] *)
Definition find_warehouse (ws : list Warehouse) (warehouseId : string)
    : option Warehouse :=
  snd <$> list_find (λ w, warehouse_id w = warehouseId) ws.

(** [inventory.find(i => i.productId === p && i.warehouseId === w)]: the
    ledger entry every reader and writer of the code consults. *)
Definition stock_item (inv : list InventoryItem) (productId warehouseId : string)
    : option InventoryItem :=
  snd <$> list_find (matches productId warehouseId) inv.

(** [inventory.find(...)?.quantity || 0], the quantity the views show. *)
Definition quantityOf (inv : list InventoryItem) (productId warehouseId : string)
    : Z :=
  default 0 (item_quantity <$> stock_item inv productId warehouseId).

(** ** The reducer, one definition per [case], over integer quantities *)

Definition add_warehouse (env : Env) (state : AppState) (warehouse : Warehouse)
    : AppState :=
  let newWarehouse := with_warehouse_id warehouse (uuid env 0) in
  with_warehouses state (warehouses state ++ [newWarehouse]).

Definition creation_log (id timestamp : string) (newProduct : Product)
    (details user : string) : LogEntry :=
  mkLogEntry id timestamp (product_name newProduct) (product_sku newProduct)
    "N/A" CREACION 0 0 details user None.

Definition add_product (env : Env) (state : AppState) (product : Product)
    : AppState :=
  let newProduct := with_product_id product (uuid env 0) in
  let newLog :=
    creation_log (uuid env 1) (now env 0) newProduct
      "Producto nuevo añadido al sistema." (user_name (currentUser state)) in
  with_products_logs state (products state ++ [newProduct])
    (newLog :: logs state).

(** [productsToAdd.forEach]: the k-th iteration draws two identifiers (the
    product's, then the log entry's) and reads the clock once. *)
Definition bulk_add_products (env : Env) (state : AppState)
    (productsToAdd : list Product) : AppState :=
  let newProducts :=
    imap (λ k productData, with_product_id productData (uuid env (2 * k)%nat))
      productsToAdd in
  let newLogs :=
    imap (λ k productData,
            creation_log (uuid env (2 * k + 1)%nat) (now env k)
              (with_product_id productData (uuid env (2 * k)%nat))
              "Producto añadido por carga masiva."
              (user_name (currentUser state)))
      productsToAdd in
  with_products_logs state (products state ++ newProducts)
    (newLogs ++ logs state).

Definition update_product (state : AppState) (updatedProduct : Product)
    : AppState :=
  with_products state
    ((λ p, if decide (product_id p = product_id updatedProduct)
           then updatedProduct else p) <$> products state).

Definition delete_product (state : AppState) (productId : string) : AppState :=
  with_products_inventory state
    (filter (λ p, product_id p ≠ productId) (products state))
    (filter (λ i, item_productId i ≠ productId) (inventory state)).

Definition adjust_stock (env : Env) (state : AppState)
    (productId warehouseId : string) (quantityChange : Z) (type : LogType)
    (details : string) : AppState :=
  match find_product (products state) productId,
        find_warehouse (warehouses state) warehouseId with
  | Some product, Some warehouse =>
      let '(newQuantityInWarehouse, updatedInventory) :=
        match list_find (matches productId warehouseId) (inventory state) with
        | Some (inventoryItemIndex, currentItem) =>
            let newQuantityInWarehouse :=
              Z.max 0 (item_quantity currentItem + quantityChange) in
            (newQuantityInWarehouse,
             <[inventoryItemIndex := with_quantity currentItem newQuantityInWarehouse]>
               (inventory state))
        | None =>
            let newQuantityInWarehouse := Z.max 0 quantityChange in
            (newQuantityInWarehouse,
             if decide (0 < newQuantityInWarehouse)
             then inventory state
                    ++ [mkInventoryItem productId warehouseId newQuantityInWarehouse]
             else inventory state)
        end in
      let newLog :=
        mkLogEntry (uuid env 0) (now env 0) (product_name product)
          (product_sku product) (warehouse_name warehouse) type quantityChange
          newQuantityInWarehouse details (user_name (currentUser state)) None in
      with_inventory_logs state updatedInventory (newLog :: logs state)
  | _, _ => state
  end.

Definition transfer_stock (env : Env) (state : AppState)
    (productId fromWarehouseId toWarehouseId : string) (quantity : Z)
    (details : string) : AppState :=
  match find_product (products state) productId,
        find_warehouse (warehouses state) fromWarehouseId,
        find_warehouse (warehouses state) toWarehouseId with
  | Some product, Some fromWarehouse, Some toWarehouse =>
      if decide (quantity ≤ 0) then state else
      (* Salida del almacén de origen *)
      match list_find (matches productId fromWarehouseId) (inventory state) with
      | None => state
      | Some (fromInventoryIndex, fromItem) =>
          if decide (item_quantity fromItem < quantity) then state else
          let finalFromQuantity := item_quantity fromItem - quantity in
          let updatedInventory :=
            <[fromInventoryIndex := with_quantity fromItem finalFromQuantity]>
              (inventory state) in
          let salida :=
            mkLogEntry (uuid env 0) (now env 0) (product_name product)
              (product_sku product) (warehouse_name fromWarehouse) SALIDA
              (- quantity) finalFromQuantity
              ("Transferencia a " +:+ warehouse_name toWarehouse +:+ ". "
                 +:+ details)
              (user_name (currentUser state)) None in
          (* Entrada en el almacén de destino *)
          let '(finalToQuantity, updatedInventory) :=
            match list_find (matches productId toWarehouseId) updatedInventory with
            | Some (toInventoryIndex, toItem) =>
                let finalToQuantity := item_quantity toItem + quantity in
                (finalToQuantity,
                 <[toInventoryIndex := with_quantity toItem finalToQuantity]>
                   updatedInventory)
            | None =>
                (quantity,
                 updatedInventory
                   ++ [mkInventoryItem productId toWarehouseId quantity])
            end in
          let entrada :=
            mkLogEntry (uuid env 1) (now env 1) (product_name product)
              (product_sku product) (warehouse_name toWarehouse) ENTRADA
              quantity finalToQuantity
              ("Transferencia desde " +:+ warehouse_name fromWarehouse +:+ ". "
                 +:+ details)
              (user_name (currentUser state)) None in
          with_inventory_logs state updatedInventory
            ([salida; entrada] ++ logs state)
      end
  | _, _, _ => state
  end.

Definition access_entries (userId : string) (warehouseIds : list string)
    : list UserWarehouseAccess :=
  (λ warehouseId, mkAccess userId warehouseId) <$> warehouseIds.

Definition add_user (env : Env) (state : AppState) (user : User)
    (warehouseIds : list string) : AppState :=
  let newUser := with_user_id user (uuid env 0) in
  with_users_access state (users state ++ [newUser])
    (userWarehouseAccess state ++ access_entries (user_id newUser) warehouseIds).

Definition update_user (state : AppState) (updatedUser : User)
    (warehouseIds : list string) : AppState :=
  with_users_access state
    ((λ u, if decide (user_id u = user_id updatedUser) then updatedUser else u)
       <$> users state)
    (filter (λ access, access_userId access ≠ user_id updatedUser)
       (userWarehouseAccess state)
       ++ access_entries (user_id updatedUser) warehouseIds).

Definition delete_user (state : AppState) (userId : string) : AppState :=
  (* Prevenir la eliminación del usuario actual *)
  if decide (userId = user_id (currentUser state)) then state else
  with_users_access state
    (filter (λ u, user_id u ≠ userId) (users state))
    (filter (λ access, access_userId access ≠ userId)
       (userWarehouseAccess state)).

Definition reducer (env : Env) (state : AppState) (action : Action) : AppState :=
  match action with
  | ADD_WAREHOUSE warehouse => add_warehouse env state warehouse
  | ADD_PRODUCT product => add_product env state product
  | BULK_ADD_PRODUCTS productsToAdd => bulk_add_products env state productsToAdd
  | UPDATE_PRODUCT product => update_product state product
  | DELETE_PRODUCT productId => delete_product state productId
  | ADJUST_STOCK productId warehouseId quantityChange type details =>
      adjust_stock env state productId warehouseId quantityChange type details
  | TRANSFER_STOCK productId fromWarehouseId toWarehouseId quantity details =>
      transfer_stock env state productId fromWarehouseId toWarehouseId quantity
        details
  | ADD_USER user warehouseIds => add_user env state user warehouseIds
  | UPDATE_USER user warehouseIds => update_user state user warehouseIds
  | DELETE_USER userId => delete_user state userId
  | BULK_TRANSFER_STOCK _ _ _ _ => state
  | UPDATE_PURCHASE_ORDER _ _ _ => state
  | OTHER_ACTION _ => state
  end.

(** ** What a caller observes from one dispatch

    The body of [reducer] has no [throw]: each of its exits is a [return]
    of a state, and the array and string operations it calls do not raise on
    the values it passes them.  A dispatch therefore always completes with a
    state.  [EngineError] lists the error names of the specification's
    taxonomy, so that statements which name them can be written down; no
    constructor of it is produced by the code. *)

Inductive EngineError :=
| NotFoundError
| InvalidOperationError
| InsufficientStockError
| InvalidStateError.

Inductive Outcome :=
| Returned (state : AppState)
| Thrown (error : EngineError).

Definition dispatch (env : Env) (state : AppState) (action : Action) : Outcome :=
  Returned (reducer env state action).

(** ** Mock data ([services/mockData.ts]) and the initial state *)

Definition mockWarehouses : list Warehouse := [
  mkWarehouse "w1" "Almacén Principal" "150141 - AV LOS GERANIOS 321";
  mkWarehouse "w2" "Bodega Norte" "Ciudad Capital, Sector Norte";
  mkWarehouse "w3" "Punto de Venta Central"
    "150140 - AV. CAMINOS DEL INCA NRO. 3140 DPTO. 401 URB. PROLONGACION BENAVIDES - LIMA LIMA SANTIAGO DE SURCO"
].

Definition taladro : Product :=
  mkProduct "p1" "Taladro Inalámbrico 20V" "TLD-20V-001"
    "Herramientas Elétricas" (12999 # 100) 10
    "Potente taladro inalámbrico de 20V con batería de litio de larga duración. Ideal para trabajos de perforación en madera, metal y plástico."
    ["https://via.placeholder.com/600x400.png/2d3748/ffffff?text=Taladro"].

Definition martillo : Product :=
  mkProduct "p3" "Martillo de Carpintero" "MTC-CF-003"
    "Herramientas Manuales" (2450 # 100) 20
    "Martillo de carpintero con cabeza de acero forjado y mango de fibra de vidrio para una absorción óptima de impactos."
    ["https://via.placeholder.com/600x400.png/2d3748/ffffff?text=Martillo"].

Definition mockProducts : list Product := [
  taladro;
  mkProduct "p2" "Juego de 100 Brocas" "BRC-100-002" "Accesorios"
    (4999 # 100) 15
    "Set completo de 100 brocas de titanio de alta velocidad para múltiples materiales. Incluye estuche organizador."
    ["https://via.placeholder.com/600x400.png/2d3748/ffffff?text=Brocas"];
  martillo;
  mkProduct "p4" "Caja de Herramientas Metálica" "CJA-MTL-004"
    "Almacenamiento" (7500 # 100) 5
    "Caja de herramientas metálica de 5 compartimentos, resistente y con amplio espacio para organizar todas tus herramientas."
    ["https://via.placeholder.com/600x400.png/2d3748/ffffff?text=Caja"];
  mkProduct "p5" "Guantes de Seguridad (Par)" "GNT-SEG-005" "Seguridad"
    (999 # 100) 50
    "Par de guantes de seguridad recubiertos de nitrilo para un mejor agarre y protección contra cortes y abrasiones."
    ["https://via.placeholder.com/600x400.png/2d3748/ffffff?text=Guantes"];
  mkProduct "p6" "COCA COLA 500ML X12" "CF_600/04" "Bebidas" (1500 # 100) 20
    "Paquete de 12 botellas de Coca Cola de 500ml." []
].

Definition mockInventory : list InventoryItem := [
  mkInventoryItem "p1" "w1" 25;
  mkInventoryItem "p1" "w2" 12;
  mkInventoryItem "p2" "w1" 8;
  mkInventoryItem "p3" "w1" 80;
  mkInventoryItem "p3" "w2" 32;
  mkInventoryItem "p3" "w3" 15;
  mkInventoryItem "p4" "w2" 0;
  mkInventoryItem "p5" "w1" 150;
  mkInventoryItem "p5" "w2" 100;
  mkInventoryItem "p6" "w1" 50
].

(** The four timestamps are computed from [Date.now()] when the module is
    loaded; [boot k] is the k-th of them. *)
Definition mockLogs (boot : nat -> string) : list LogEntry := [
  mkLogEntry "l4" (boot 0%nat) "Taladro Inalámbrico 20V" "TLD-20V-001"
    "Almacén Principal" SALIDA (-5) 25 "Venta a cliente #C-2024-01"
    "Empleado Mostrador" None;
  mkLogEntry "l1" (boot 1%nat) "Taladro Inalámbrico 20V" "TLD-20V-001"
    "Almacén Principal" ENTRADA 30 30
    "Recepción de pedido de proveedor #PO-1024" "Sistema" None;
  mkLogEntry "l2" (boot 2%nat) "Taladro Inalámbrico 20V" "TLD-20V-001"
    "Bodega Norte" ENTRADA 12 12 "Transferencia desde Almacén Principal"
    "Sistema" None;
  mkLogEntry "l3" (boot 3%nat) "Guantes de Seguridad (Par)" "GNT-SEG-005" "N/A"
    CREACION 0 0 "Producto nuevo añadido al sistema" "Sistema" None
].

Definition adminGeneral : User :=
  mkUser "u1" "Admin General" "admin@dominio.com" ADMINISTRADOR
    (Some "adminpassword").

Definition mockUsers : list User := [
  adminGeneral;
  mkUser "u2" "Gerente Bodega" "gerente@dominio.com" GERENTE
    (Some "gerentepassword");
  mkUser "u3" "Empleado Mostrador" "empleado@dominio.com" EMPLEADO
    (Some "empleadopassword");
  mkUser "u4" "JAYCO SOCIEDAD ANONIMA CERRADA" "cliente@jayco.com" EMPLEADO
    (Some "clientepassword")
].

Definition mockUserWarehouseAccess : list UserWarehouseAccess := [
  mkAccess "u2" "w1";
  mkAccess "u2" "w2";
  mkAccess "u3" "w3"
].

(** [currentUser: mockUsers[0]] *)
Definition initialState (boot : nat -> string) : AppState :=
  mkAppState mockProducts mockWarehouses mockInventory (mockLogs boot)
    mockUsers mockUserWarehouseAccess adminGeneral.

(** ** Reachable states: [useReducer(reducer, initialState)] followed by any
    sequence of dispatched actions, each run in its own environment. *)

Inductive reachable : AppState → Prop :=
| reachable_initial boot : reachable (initialState boot)
| reachable_dispatch env state action :
    reachable state → reachable (reducer env state action).

(** Running a list of actions, the k-th in environment [envs k]. *)
Fixpoint run (envs : nat → Env) (state : AppState) (actions : list Action)
    : AppState :=
  match actions with
  | [] => state
  | action :: rest =>
      run (λ k, envs (S k)) (reducer (envs 0%nat) state action) rest
  end.

(** ** Concrete runs

    A fixed environment and boot clock for the closed examples below. *)

Definition sample_env : Env :=
  mkEnv (λ k, "uuid-" +:+ pretty k) (λ k, "2024-01-01T00:00:0" +:+ pretty k).

Definition sample_boot : nat → string := λ k, "2023-12-31T2" +:+ pretty k.

Definition s0 : AppState := initialState sample_boot.

(** ** UI handlers that build the dispatched actions *)

(** [AdjustStockModal.handleAdjust] for an integer in the quantity field;
    [None] is the early [return].  [Js.handleAdjust] below is the handler
    over every value the field's state takes, NaN included. *)
Definition handleAdjust (product : Product) (warehouseId : string)
    (change : Z) (type : LogType) (details : string) : option Action :=
  if decide (change = 0 ∨ warehouseId = "") then None else
  Some (ADJUST_STOCK (product_id product) warehouseId
          (if decide (type = SALIDA) then - Z.abs change else Z.abs change)
          type
          (if decide (details = "") then "Ajuste manual de stock." else details)).

(** [TransferStockModal.handleTransfer] *)
Definition handleTransfer (product : Product)
    (fromWarehouseId toWarehouseId : string) (quantity : Z) (details : string)
    : option Action :=
  if decide (quantity ≤ 0 ∨ fromWarehouseId = "" ∨ toWarehouseId = ""
             ∨ fromWarehouseId = toWarehouseId)
  then None else
  Some (TRANSFER_STOCK (product_id product) fromWarehouseId toWarehouseId
          quantity
          (if decide (details = "") then "Transferencia entre almacenes."
           else details)).

Record ItemToTransfer := mkItemToTransfer {
  transfer_product : Product;
  transfer_quantity : Z;
  transfer_maxQuantity : Z;
}.

(** [BulkTransferModal.handleConfirmTransfer] *)
Definition handleConfirmTransfer (itemsToTransfer : list ItemToTransfer)
    (fromWarehouseId toWarehouseId details : string) : option Action :=
  let itemsPayload :=
    (λ item, mkBulkItem (product_id (transfer_product item))
               (transfer_quantity item))
      <$> filter (λ item, 0 < transfer_quantity item) itemsToTransfer in
  if decide (length itemsPayload = 0%nat ∨ fromWarehouseId = ""
             ∨ toWarehouseId = "")
  then None else
  Some (BULK_TRANSFER_STOCK itemsPayload fromWarehouseId toWarehouseId
          (if decide (details = "")
           then "Transferencia de " +:+ pretty (length itemsPayload)
                  +:+ " productos."
           else details)).

(** [PurchaseOrdersView.handleStatusChange] (first version of the view) *)
Definition handleStatusChange (poId : string) (status : PurchaseOrderStatus)
    : Action :=
  UPDATE_PURCHASE_ORDER poId status None.

(** [PurchaseOrdersView.handleReceiveOrder]; [confirmed] is the answer to
    [window.confirm]. *)
Definition handleReceiveOrder (confirmed : bool) (po : PurchaseOrder)
    : option Action :=
  if confirmed then Some (handleStatusChange (po_id po) RECIBIDA) else None.

(** ** Views: totals, stock status, permitted warehouses *)

(** [items.reduce((sum, item) => sum + item.quantity, 0)] *)
Definition sum_quantities (items : list InventoryItem) : Z :=
  foldl (λ sum item, sum + item_quantity item) 0 items.

(** [totalQuantity] of [productTotals] (DashboardView, ProductsView). *)
Definition totalQuantity (inv : list InventoryItem) (productId : string) : Z :=
  sum_quantities (filter (λ item, item_productId item = productId) inv).

(** [totalUnits] of DashboardView. *)
Definition totalUnits (inv : list InventoryItem) : Z := sum_quantities inv.

(** [WarehousesView.getWarehouseStock], also [stockByWarehouse]. *)
Definition getWarehouseStock (inv : list InventoryItem) (warehouseId : string)
    : Z :=
  sum_quantities (filter (λ item, item_warehouseId item = warehouseId) inv).

(** [productTotals]: every product with its total. *)
Definition productTotals (ps : list Product) (inv : list InventoryItem)
    : list (Product * Z) :=
  (λ p, (p, totalQuantity inv (product_id p))) <$> ps.

(** [lowStockItems] and [outOfStockItems] of DashboardView. *)
Definition lowStockItems (totals : list (Product * Z)) : list (Product * Z) :=
  filter (λ p, 0 < p.2 ∧ p.2 ≤ product_lowStockThreshold p.1) totals.

Definition outOfStockItems (totals : list (Product * Z)) : list (Product * Z) :=
  filter (λ p, p.2 = 0) totals.

(** The three results of [ProductsView.getStockStatusClass], named after the
    colour of the class string returned. *)
Inductive StockStatusClass := StatusRed | StatusYellow | StatusGreen.

Definition getStockStatusClass (p : Product * Z) : StockStatusClass :=
  if decide (p.2 = 0) then StatusRed
  else if decide (p.2 ≤ product_lowStockThreshold p.1) then StatusYellow
  else StatusGreen.

(** [userWarehouseAccess.filter(access => access.userId === id)
      .map(access => access.warehouseId)], the [permittedIds] of the hook. *)
Definition permittedIds (access : list UserWarehouseAccess) (userId : string)
    : list string :=
  access_warehouseId <$> filter (λ a, access_userId a = userId) access.

(** [usePermittedWarehouses] *)
Definition usePermittedWarehouses (state : AppState) : list Warehouse :=
  if decide (user_role (currentUser state) = ADMINISTRADOR)
  then warehouses state
  else filter
         (λ w, warehouse_id w
                 ∈ permittedIds (userWarehouseAccess state)
                     (user_id (currentUser state)))
         (warehouses state).

(** ** The bulk transfer modal ([BulkTransferModal.tsx])

    The modal state is the list [itemsToTransfer]; the inventory and the
    source warehouse are those of the render in which a handler runs. *)

(** [stockItem && stockItem.quantity > 0] *)
Definition has_stock (inv : list InventoryItem) (fromWarehouseId : string)
    (p : Product) : Prop :=
  match stock_item inv (product_id p) fromWarehouseId with
  | Some stockItem => 0 < item_quantity stockItem
  | None => False
  end.

Global Instance has_stock_dec inv from p : Decision (has_stock inv from p).
Proof. unfold has_stock. destruct (stock_item _ _ _); apply _. Defined.

Definition availableProducts (ps : list Product) (inv : list InventoryItem)
    (fromWarehouseId : string) (itemsToTransfer : list ItemToTransfer)
    : list Product :=
  if decide (fromWarehouseId = "") then [] else
  let itemsInThisTransfer :=
    (λ item, product_id (transfer_product item)) <$> itemsToTransfer in
  filter (λ p, has_stock inv fromWarehouseId p
               ∧ product_id p ∉ itemsInThisTransfer) ps.

Definition handleAddProduct (inv : list InventoryItem)
    (fromWarehouseId : string) (prev : list ItemToTransfer) (product : Product)
    : list ItemToTransfer :=
  match stock_item inv (product_id product) fromWarehouseId with
  | Some stockItem =>
      if decide (item_quantity stockItem ≤ 0) then prev
      else prev ++ [mkItemToTransfer product 1 (item_quantity stockItem)]
  | None => prev
  end.

Definition handleQuantityChange (prev : list ItemToTransfer)
    (productId : string) (newQuantity : Z) : list ItemToTransfer :=
  (λ item,
     if decide (product_id (transfer_product item) = productId)
     then mkItemToTransfer (transfer_product item)
            (Z.max 0 (Z.min (transfer_maxQuantity item) newQuantity))
            (transfer_maxQuantity item)
     else item) <$> prev.

Definition handleRemoveItem (prev : list ItemToTransfer) (productId : string)
    : list ItemToTransfer :=
  filter (λ item, product_id (transfer_product item) ≠ productId) prev.

Definition isTransferDisabled (itemsToTransfer : list ItemToTransfer)
    (fromWarehouseId toWarehouseId : string) : Prop :=
  length itemsToTransfer = 0%nat ∨ fromWarehouseId = "" ∨ toWarehouseId = ""
  ∨ fromWarehouseId = toWarehouseId
  ∨ Forall (λ i, transfer_quantity i = 0) itemsToTransfer.

Global Instance isTransferDisabled_dec items from to :
  Decision (isTransferDisabled items from to).
Proof. unfold isTransferDisabled. apply _. Defined.

(** The lists the modal can hold for a fixed inventory and source warehouse:
    it opens empty, products are added by clicking an entry of
    [availableProducts], quantities are typed in, and rows are removed. *)
Inductive modal_items (ps : list Product) (inv : list InventoryItem)
    (fromWarehouseId : string) : list ItemToTransfer → Prop :=
| modal_open : modal_items ps inv fromWarehouseId []
| modal_add prev product :
    modal_items ps inv fromWarehouseId prev →
    product ∈ availableProducts ps inv fromWarehouseId prev →
    modal_items ps inv fromWarehouseId
      (handleAddProduct inv fromWarehouseId prev product)
| modal_change prev productId newQuantity :
    modal_items ps inv fromWarehouseId prev →
    modal_items ps inv fromWarehouseId
      (handleQuantityChange prev productId newQuantity)
| modal_remove prev productId :
    modal_items ps inv fromWarehouseId prev →
    modal_items ps inv fromWarehouseId (handleRemoveItem prev productId).

(** ** The CSV import modal (confirmation step) *)

Record ParsedRow := mkParsedRow {
  row_product : Product;
  row_isValid : bool;
}.

(** [ImportModal.handleConfirmImport]: the dispatched action, if any, and the
    summary [{ success, failed }]. *)
Definition handleConfirmImport (parsedData : list ParsedRow)
    : option Action * (nat * nat) :=
  let validProducts :=
    row_product <$> filter (λ d, row_isValid d = true) parsedData in
  let failedCount := (length parsedData - length validProducts)%nat in
  (if decide (0 < length validProducts)%nat
   then Some (BULK_ADD_PRODUCTS validProducts) else None,
   (length validProducts, failedCount)).

(** A row of the modal is within bounds: its quantity lies between zero and
    its maximum, and the maximum is the positive quantity the ledger holds
    for the product at the source warehouse. *)
Definition modal_item_ok (inv : list InventoryItem) (fromWarehouseId : string)
    (item : ItemToTransfer) : Prop :=
  0 ≤ transfer_quantity item
  ∧ transfer_quantity item ≤ transfer_maxQuantity item
  ∧ 0 < transfer_maxQuantity item
  ∧ transfer_maxQuantity item
    = quantityOf inv (product_id (transfer_product item)) fromWarehouseId.

(** The state after the confirmation step of the import. *)
Definition apply_dispatched (env : Env) (state : AppState)
    (dispatched : option Action) : AppState :=
  match dispatched with
  | Some action => reducer env state action
  | None => state
  end.

(** Ledger key of an entry. *)
Definition item_key (it : InventoryItem) : string * string :=
  (item_productId it, item_warehouseId it).

(** ** The reducer over JavaScript numbers

    The definitions above fix the payload and ledger numbers to integers.
    The module [Js] repeats the reducer and the two stock handlers over the
    values a [number] takes in the running application: integer-valued
    doubles, the two infinities and NaN ([parseInt] returns NaN for an empty
    field).  [Fin z] is the double holding the integer [z]; addition rounds
    to the nearest double, ties to even, as IEEE 754 binary64 does.  Negative
    zero is identified with zero, and fractional doubles, which [parseInt]
    never returns, are not represented. *)

Module Js.

Inductive number :=
| Fin (z : Z)
| PosInf
| NegInf
| NaN.

(** The double nearest to the integer [z] (ties to even); integers below
    2^53 in magnitude are exact, and magnitudes that round to 2^1024 or more
    overflow to an infinity. *)
Definition round_double (z : Z) : number :=
  let m := Z.abs z in
  if m <? 2 ^ 53 then Fin z else
  let shift := Z.log2 m - 52 in
  let q := Z.shiftr m shift in
  let r := Z.land m (Z.ones shift) in
  let half := Z.shiftl 1 (shift - 1) in
  let q' := if (half <? r) || ((r =? half) && Z.odd q) then q + 1 else q in
  let m' := Z.shiftl q' shift in
  if 2 ^ 1024 <=? m' then (if z <? 0 then NegInf else PosInf)
  else Fin (Z.sgn z * m').

(** Unary [-x] *)
Definition neg (x : number) : number :=
  match x with
  | Fin z => Fin (- z)
  | PosInf => NegInf
  | NegInf => PosInf
  | NaN => NaN
  end.

(** [x + y] *)
Definition add (x y : number) : number :=
  match x, y with
  | NaN, _ | _, NaN => NaN
  | Fin a, Fin b => round_double (a + b)
  | PosInf, NegInf | NegInf, PosInf => NaN
  | PosInf, _ | _, PosInf => PosInf
  | NegInf, _ | _, NegInf => NegInf
  end.

(** [x - y] *)
Definition sub (x y : number) : number := add x (neg y).

(** [x < y] *)
Definition ltb (x y : number) : bool :=
  match x, y with
  | NaN, _ | _, NaN => false
  | Fin a, Fin b => a <? b
  | _, NegInf => false
  | NegInf, _ => true
  | PosInf, _ => false
  | Fin _, PosInf => true
  end.

(** [x <= y] *)
Definition leb (x y : number) : bool :=
  match x, y with
  | NaN, _ | _, NaN => false
  | Fin a, Fin b => a <=? b
  | NegInf, _ => true
  | _, PosInf => true
  | _, NegInf => false
  | PosInf, Fin _ => false
  end.

(** [x === y] *)
Definition eqb (x y : number) : bool :=
  match x, y with
  | Fin a, Fin b => a =? b
  | PosInf, PosInf | NegInf, NegInf => true
  | _, _ => false
  end.

(** [Math.max(x, y)] *)
Definition max (x y : number) : number :=
  match x, y with
  | NaN, _ | _, NaN => NaN
  | _, _ => if ltb x y then y else x
  end.

(** [Math.abs(x)] *)
Definition abs (x : number) : number :=
  match x with
  | Fin z => Fin (Z.abs z)
  | PosInf | NegInf => PosInf
  | NaN => NaN
  end.

(** [x || 0] *)
Definition or_zero (x : number) : number :=
  match x with
  | Fin 0 | NaN => Fin 0
  | _ => x
  end.

Record InventoryItem := mkInventoryItem {
  productId : string;
  warehouseId : string;
  quantity : number;
}.

Record LogEntry := mkLogEntry {
  id : string;
  timestamp : string;
  productName : string;
  sku : string;
  warehouseName : string;
  type : LogType;
  quantityChange : number;
  newQuantityInWarehouse : number;
  details : string;
  user : string;
  transactionId : option string;
}.

Record AppState := mkAppState {
  products : list Product;
  warehouses : list Warehouse;
  inventory : list InventoryItem;
  logs : list LogEntry;
  users : list User;
  userWarehouseAccess : list UserWarehouseAccess;
  currentUser : User;
}.

Record BulkItem := mkBulkItem {
  bulk_productId : string;
  bulk_quantity : number;
}.

Inductive Action :=
| ADD_PRODUCT (product : Product)
| BULK_ADD_PRODUCTS (productsToAdd : list Product)
| UPDATE_PRODUCT (product : Product)
| DELETE_PRODUCT (productId : string)
| ADJUST_STOCK (productId warehouseId : string) (quantityChange : number)
    (type : LogType) (details : string)
| TRANSFER_STOCK (productId fromWarehouseId toWarehouseId : string)
    (quantity : number) (details : string)
| ADD_WAREHOUSE (warehouse : Warehouse)
| ADD_USER (user : User) (warehouseIds : list string)
| UPDATE_USER (user : User) (warehouseIds : list string)
| DELETE_USER (userId : string)
| BULK_TRANSFER_STOCK (items : list BulkItem)
    (fromWarehouseId toWarehouseId : string) (details : string)
| UPDATE_PURCHASE_ORDER (purchaseOrderId : string)
    (status : PurchaseOrderStatus) (receivedInWarehouseId : option string)
| OTHER_ACTION (tag : string).

Definition with_quantity (it : InventoryItem) (q : number) : InventoryItem :=
  mkInventoryItem (productId it) (warehouseId it) q.

(** [i => i.productId === productId && i.warehouseId === warehouseId] *)
Definition matches (pid wid : string) (i : InventoryItem) : Prop :=
  productId i = pid ∧ warehouseId i = wid.

Global Instance matches_decision pid wid i : Decision (matches pid wid i).
Proof. unfold matches. apply _. Defined.

(** [inventory.find(...)] and [inventory.find(...)?.quantity || 0] *)
Definition stock_item (inv : list InventoryItem) (pid wid : string)
    : option InventoryItem :=
  snd <$> list_find (matches pid wid) inv.

Definition quantityOf (inv : list InventoryItem) (pid wid : string) : number :=
  from_option (λ it, or_zero (quantity it)) (Fin 0) (stock_item inv pid wid).

Definition creation_log (logId time : string) (newProduct : Product)
    (text actor : string) : LogEntry :=
  mkLogEntry logId time (product_name newProduct) (product_sku newProduct)
    "N/A" CREACION (Fin 0) (Fin 0) text actor None.

Definition add_warehouse (env : Env) (state : AppState) (warehouse : Warehouse)
    : AppState :=
  mkAppState (products state)
    (warehouses state ++ [with_warehouse_id warehouse (uuid env 0)])
    (inventory state) (logs state) (users state) (userWarehouseAccess state)
    (currentUser state).

Definition add_product (env : Env) (state : AppState) (product : Product)
    : AppState :=
  let newProduct := with_product_id product (uuid env 0) in
  let newLog :=
    creation_log (uuid env 1) (now env 0) newProduct
      "Producto nuevo añadido al sistema." (user_name (currentUser state)) in
  mkAppState (products state ++ [newProduct]) (warehouses state)
    (inventory state) (newLog :: logs state) (users state)
    (userWarehouseAccess state) (currentUser state).

Definition bulk_add_products (env : Env) (state : AppState)
    (productsToAdd : list Product) : AppState :=
  let newProducts :=
    imap (λ k productData, with_product_id productData (uuid env (2 * k)%nat))
      productsToAdd in
  let newLogs :=
    imap (λ k productData,
            creation_log (uuid env (2 * k + 1)%nat) (now env k)
              (with_product_id productData (uuid env (2 * k)%nat))
              "Producto añadido por carga masiva."
              (user_name (currentUser state)))
      productsToAdd in
  mkAppState (products state ++ newProducts) (warehouses state)
    (inventory state) (newLogs ++ logs state) (users state)
    (userWarehouseAccess state) (currentUser state).

Definition update_product (state : AppState) (updatedProduct : Product)
    : AppState :=
  mkAppState
    ((λ p, if decide (product_id p = product_id updatedProduct)
           then updatedProduct else p) <$> products state)
    (warehouses state) (inventory state) (logs state) (users state)
    (userWarehouseAccess state) (currentUser state).

Definition delete_product (state : AppState) (pid : string) : AppState :=
  mkAppState (filter (λ p, product_id p ≠ pid) (products state))
    (warehouses state) (filter (λ i, productId i ≠ pid) (inventory state))
    (logs state) (users state) (userWarehouseAccess state) (currentUser state).

Definition adjust_stock (env : Env) (state : AppState) (pid wid : string)
    (change : number) (logType : LogType) (text : string) : AppState :=
  match find_product (products state) pid,
        find_warehouse (warehouses state) wid with
  | Some product, Some warehouse =>
      let '(newQuantity, updatedInventory) :=
        match list_find (matches pid wid) (inventory state) with
        | Some (inventoryItemIndex, currentItem) =>
            let newQuantity := max (Fin 0) (add (quantity currentItem) change) in
            (newQuantity,
             <[inventoryItemIndex := with_quantity currentItem newQuantity]>
               (inventory state))
        | None =>
            let newQuantity := max (Fin 0) change in
            (newQuantity,
             if ltb (Fin 0) newQuantity
             then inventory state ++ [mkInventoryItem pid wid newQuantity]
             else inventory state)
        end in
      let newLog :=
        mkLogEntry (uuid env 0) (now env 0) (product_name product)
          (product_sku product) (warehouse_name warehouse) logType change
          newQuantity text (user_name (currentUser state)) None in
      mkAppState (products state) (warehouses state) updatedInventory
        (newLog :: logs state) (users state) (userWarehouseAccess state)
        (currentUser state)
  | _, _ => state
  end.

Definition transfer_stock (env : Env) (state : AppState)
    (pid fromId toId : string) (amount : number) (text : string) : AppState :=
  match find_product (products state) pid,
        find_warehouse (warehouses state) fromId,
        find_warehouse (warehouses state) toId with
  | Some product, Some fromWarehouse, Some toWarehouse =>
      if leb amount (Fin 0) then state else
      match list_find (matches pid fromId) (inventory state) with
      | None => state
      | Some (fromInventoryIndex, fromItem) =>
          if ltb (quantity fromItem) amount then state else
          let finalFromQuantity := sub (quantity fromItem) amount in
          let updatedInventory :=
            <[fromInventoryIndex := with_quantity fromItem finalFromQuantity]>
              (inventory state) in
          let salida :=
            mkLogEntry (uuid env 0) (now env 0) (product_name product)
              (product_sku product) (warehouse_name fromWarehouse) SALIDA
              (neg amount) finalFromQuantity
              ("Transferencia a " +:+ warehouse_name toWarehouse +:+ ". "
                 +:+ text)
              (user_name (currentUser state)) None in
          let '(finalToQuantity, updatedInventory) :=
            match list_find (matches pid toId) updatedInventory with
            | Some (toInventoryIndex, toItem) =>
                let finalToQuantity := add (quantity toItem) amount in
                (finalToQuantity,
                 <[toInventoryIndex := with_quantity toItem finalToQuantity]>
                   updatedInventory)
            | None =>
                (amount, updatedInventory ++ [mkInventoryItem pid toId amount])
            end in
          let entrada :=
            mkLogEntry (uuid env 1) (now env 1) (product_name product)
              (product_sku product) (warehouse_name toWarehouse) ENTRADA
              amount finalToQuantity
              ("Transferencia desde " +:+ warehouse_name fromWarehouse +:+ ". "
                 +:+ text)
              (user_name (currentUser state)) None in
          mkAppState (products state) (warehouses state) updatedInventory
            ([salida; entrada] ++ logs state) (users state)
            (userWarehouseAccess state) (currentUser state)
      end
  | _, _, _ => state
  end.

Definition add_user (env : Env) (state : AppState) (newUser : User)
    (warehouseIds : list string) : AppState :=
  let created := with_user_id newUser (uuid env 0) in
  mkAppState (products state) (warehouses state) (inventory state)
    (logs state) (users state ++ [created])
    (userWarehouseAccess state ++ access_entries (user_id created) warehouseIds)
    (currentUser state).

Definition update_user (state : AppState) (updatedUser : User)
    (warehouseIds : list string) : AppState :=
  mkAppState (products state) (warehouses state) (inventory state)
    (logs state)
    ((λ u, if decide (user_id u = user_id updatedUser) then updatedUser else u)
       <$> users state)
    (filter (λ access, access_userId access ≠ user_id updatedUser)
       (userWarehouseAccess state)
       ++ access_entries (user_id updatedUser) warehouseIds)
    (currentUser state).

Definition delete_user (state : AppState) (userId : string) : AppState :=
  if decide (userId = user_id (currentUser state)) then state else
  mkAppState (products state) (warehouses state) (inventory state)
    (logs state) (filter (λ u, user_id u ≠ userId) (users state))
    (filter (λ access, access_userId access ≠ userId)
       (userWarehouseAccess state))
    (currentUser state).

Definition reducer (env : Env) (state : AppState) (action : Action) : AppState :=
  match action with
  | ADD_WAREHOUSE warehouse => add_warehouse env state warehouse
  | ADD_PRODUCT product => add_product env state product
  | BULK_ADD_PRODUCTS productsToAdd => bulk_add_products env state productsToAdd
  | UPDATE_PRODUCT product => update_product state product
  | DELETE_PRODUCT pid => delete_product state pid
  | ADJUST_STOCK pid wid change logType text =>
      adjust_stock env state pid wid change logType text
  | TRANSFER_STOCK pid fromId toId amount text =>
      transfer_stock env state pid fromId toId amount text
  | ADD_USER newUser warehouseIds => add_user env state newUser warehouseIds
  | UPDATE_USER updatedUser warehouseIds =>
      update_user state updatedUser warehouseIds
  | DELETE_USER userId => delete_user state userId
  | BULK_TRANSFER_STOCK _ _ _ _ => state
  | UPDATE_PURCHASE_ORDER _ _ _ => state
  | OTHER_ACTION _ => state
  end.

(** [AdjustStockModal.handleAdjust]; [change] is the modal's state, set by
    [setChange(parseInt(e.target.value, 10))], so it is NaN once the field
    has been cleared. *)
Definition handleAdjust (product : Product) (wid : string) (change : number)
    (logType : LogType) (text : string) : option Action :=
  if eqb change (Fin 0) || bool_decide (wid = "") then None else
  Some (ADJUST_STOCK (product_id product) wid
          (if decide (logType = SALIDA) then neg (abs change) else abs change)
          logType
          (if decide (text = "") then "Ajuste manual de stock." else text)).

(** [TransferStockModal.handleTransfer] *)
Definition handleTransfer (product : Product) (fromId toId : string)
    (amount : number) (text : string) : option Action :=
  if leb amount (Fin 0) || bool_decide (fromId = "") || bool_decide (toId = "")
     || bool_decide (fromId = toId)
  then None else
  Some (TRANSFER_STOCK (product_id product) fromId toId amount
          (if decide (text = "") then "Transferencia entre almacenes."
           else text)).

End Js.

(** ** Integer states inside the states over numbers *)

Definition embed_item (it : InventoryItem) : Js.InventoryItem :=
  Js.mkInventoryItem (item_productId it) (item_warehouseId it)
    (Js.Fin (item_quantity it)).

Definition embed_log (e : LogEntry) : Js.LogEntry :=
  Js.mkLogEntry (log_id e) (log_timestamp e) (log_productName e) (log_sku e)
    (log_warehouseName e) (log_type e) (Js.Fin (log_quantityChange e))
    (Js.Fin (log_newQuantityInWarehouse e)) (log_details e) (log_user e)
    (log_transactionId e).

Definition embed_state (s : AppState) : Js.AppState :=
  Js.mkAppState (products s) (warehouses s) (embed_item <$> inventory s)
    (embed_log <$> logs s) (users s) (userWarehouseAccess s) (currentUser s).

Definition embed_action (a : Action) : Js.Action :=
  match a with
  | ADD_PRODUCT product => Js.ADD_PRODUCT product
  | BULK_ADD_PRODUCTS productsToAdd => Js.BULK_ADD_PRODUCTS productsToAdd
  | UPDATE_PRODUCT product => Js.UPDATE_PRODUCT product
  | DELETE_PRODUCT productId => Js.DELETE_PRODUCT productId
  | ADJUST_STOCK productId warehouseId quantityChange type details =>
      Js.ADJUST_STOCK productId warehouseId (Js.Fin quantityChange) type details
  | TRANSFER_STOCK productId fromWarehouseId toWarehouseId quantity details =>
      Js.TRANSFER_STOCK productId fromWarehouseId toWarehouseId
        (Js.Fin quantity) details
  | ADD_WAREHOUSE warehouse => Js.ADD_WAREHOUSE warehouse
  | ADD_USER user warehouseIds => Js.ADD_USER user warehouseIds
  | UPDATE_USER user warehouseIds => Js.UPDATE_USER user warehouseIds
  | DELETE_USER userId => Js.DELETE_USER userId
  | BULK_TRANSFER_STOCK items fromWarehouseId toWarehouseId details =>
      Js.BULK_TRANSFER_STOCK
        ((λ b, Js.mkBulkItem (bulk_productId b) (Js.Fin (bulk_quantity b)))
           <$> items)
        fromWarehouseId toWarehouseId details
  | UPDATE_PURCHASE_ORDER purchaseOrderId status receivedInWarehouseId =>
      Js.UPDATE_PURCHASE_ORDER purchaseOrderId status receivedInWarehouseId
  | OTHER_ACTION tag => Js.OTHER_ACTION tag
  end.

(** An integer whose double is the integer itself. *)
Definition safe_integer (z : Z) : Prop := - 2 ^ 53 < z < 2 ^ 53.

(** The additions an action performs on the ledger stay among the safe
    integers. *)
Definition safe_step (s : AppState) (a : Action) : Prop :=
  match a with
  | ADJUST_STOCK _ _ quantityChange _ _ =>
      Forall (λ it, safe_integer (item_quantity it + quantityChange))
        (inventory s)
  | TRANSFER_STOCK _ _ _ quantity _ =>
      Forall (λ it, safe_integer (item_quantity it - quantity)
                    ∧ safe_integer (item_quantity it + quantity))
        (inventory s)
  | _ => True
  end.

(** The initial state and the reachable states over numbers. *)
Definition js_initialState (boot : nat → string) : Js.AppState :=
  embed_state (initialState boot).

Inductive js_reachable : Js.AppState → Prop :=
| js_reachable_initial boot : js_reachable (js_initialState boot)
| js_reachable_dispatch env state action :
    js_reachable state → js_reachable (Js.reducer env state action).

(** [x >= 0] on numbers; it is false of NaN. *)
Definition js_nonneg (x : Js.number) : Prop := Js.leb (Js.Fin 0) x = true.

(** The quantity a stock action carries in its payload. *)
Definition js_action_number (a : Js.Action) : option Js.number :=
  match a with
  | Js.ADJUST_STOCK _ _ quantityChange _ _ => Some quantityChange
  | Js.TRANSFER_STOCK _ _ _ quantity _ => Some quantity
  | _ => None
  end.

(** The states reached when every dispatched stock action carries a finite
    number (an integer-valued double). *)
Inductive js_reachable_finite : Js.AppState → Prop :=
| js_finite_initial boot : js_reachable_finite (js_initialState boot)
| js_finite_dispatch env state action :
    js_reachable_finite state →
    (∀ x, js_action_number action = Some x → ∃ z, x = Js.Fin z) →
    js_reachable_finite (Js.reducer env state action).

(** ** Engine operations whose reducer cases are not among the sources

    [BulkTransferModal] dispatches BULK_TRANSFER_STOCK and
    [PurchaseOrdersView] dispatches UPDATE_PURCHASE_ORDER, and [types.ts]
    declares [PurchaseOrder], but the reducer of [InventoryContext.tsx] has
    no [case] for either action and its [AppState] has no purchase-order
    collection: the code that applies a bulk transfer or receives a purchase
    order is not among the sources.  The definitions below follow sections 3,
    4.1, 4.3 and 7 of the specification, on the records of [types.ts] and
    with the log kept newest first, as the reducer keeps it. *)

(** Modelled from the spec: the outcome of an engine operation of section
    4.3, which the missing reducer cases would produce: either the new state,
    or one of the errors of section 7 and no state (the caller keeps the one
    it had, so a rejected operation has no effect). *)
Inductive EngineResult (A : Type) :=
| Done (result : A)
| Rejected (error : EngineError).
Arguments Done {A} result.
Arguments Rejected {A} error.

(** Modelled from the spec: [applyDelta(productId, warehouseId, delta)] of
    section 4.1, the ledger primitive the missing cases compose.  It looks
    up the entry, takes 0 as the current quantity when there is none,
    computes [max(0, current + delta)], writes it to the entry, or creates
    the entry when the new quantity is positive, and returns the new
    quantity for the caller to log. *)
Definition applyDelta (inv : list InventoryItem) (productId warehouseId : string)
    (delta : Z) : Z * list InventoryItem :=
  match list_find (matches productId warehouseId) inv with
  | Some (index, entry) =>
      let newQuantity := Z.max 0 (item_quantity entry + delta) in
      (newQuantity, <[index := with_quantity entry newQuantity]> inv)
  | None =>
      let newQuantity := Z.max 0 (0 + delta) in
      (newQuantity,
       if decide (0 < newQuantity)
       then inv ++ [mkInventoryItem productId warehouseId newQuantity]
       else inv)
  end.

(** Modelled from the spec: the per-item preconditions of the missing
    BULK_TRANSFER_STOCK case (section 4.3, the same preconditions as
    transferStock, applied independently per item, with the errors of section
    7): the product exists, the quantity is positive, and the source entry
    holds at least the requested quantity. *)
Definition check_item (s : AppState) (fromWarehouseId : string) (item : BulkItem)
    : EngineResult (Product * Z) :=
  match find_product (products s) (bulk_productId item) with
  | None => Rejected NotFoundError
  | Some product =>
      if decide (bulk_quantity item ≤ 0) then Rejected InvalidOperationError
      else
        match stock_item (inventory s) (bulk_productId item) fromWarehouseId with
        | None => Rejected InsufficientStockError
        | Some entry =>
            if decide (item_quantity entry < bulk_quantity item)
            then Rejected InsufficientStockError
            else Done (product, bulk_quantity item)
        end
  end.

(** Modelled from the spec: the validation pass of the missing
    BULK_TRANSFER_STOCK case; every item is checked against the ledger as it
    is before any mutation, and the first failure rejects the batch. *)
Fixpoint check_items (s : AppState) (fromWarehouseId : string)
    (items : list BulkItem) : EngineResult (list (Product * Z)) :=
  match items with
  | [] => Done []
  | item :: rest =>
      match check_item s fromWarehouseId item with
      | Rejected error => Rejected error
      | Done line =>
          match check_items s fromWarehouseId rest with
          | Rejected error => Rejected error
          | Done lines => Done (line :: lines)
          end
      end
  end.

(** Modelled from the spec: the mutation pass of the missing
    BULK_TRANSFER_STOCK case.  For the k-th item it applies [-quantity] at
    the source and [+quantity] at the destination through [applyDelta], and
    logs an EXIT naming the destination and an ENTRY naming the source, both
    tagged with the batch's one transactionId. *)
Fixpoint transfer_lines (env : Env) (transactionId : string)
    (fromWarehouse toWarehouse : Warehouse) (details actor : string) (k : nat)
    (lines : list (Product * Z)) (inv : list InventoryItem)
    : list InventoryItem * list LogEntry :=
  match lines with
  | [] => (inv, [])
  | (product, quantity) :: rest =>
      let '(finalFromQuantity, inv1) :=
        applyDelta inv (product_id product) (warehouse_id fromWarehouse)
          (- quantity) in
      let '(finalToQuantity, inv2) :=
        applyDelta inv1 (product_id product) (warehouse_id toWarehouse)
          quantity in
      let salida :=
        mkLogEntry (uuid env (2 * k + 1)%nat) (now env k) (product_name product)
          (product_sku product) (warehouse_name fromWarehouse) SALIDA
          (- quantity) finalFromQuantity
          ("Transferencia a " +:+ warehouse_name toWarehouse +:+ ". "
             +:+ details)
          actor (Some transactionId) in
      let entrada :=
        mkLogEntry (uuid env (2 * k + 2)%nat) (now env k) (product_name product)
          (product_sku product) (warehouse_name toWarehouse) ENTRADA
          quantity finalToQuantity
          ("Transferencia desde " +:+ warehouse_name fromWarehouse +:+ ". "
             +:+ details)
          actor (Some transactionId) in
      let '(inv', newLogs) :=
        transfer_lines env transactionId fromWarehouse toWarehouse details
          actor (S k) rest inv2 in
      (inv', salida :: entrada :: newLogs)
  end.

(** Modelled from the spec: [bulkTransferStock(items, fromWarehouseId,
    toWarehouseId, details, actor)] of section 4.3, the operation the missing
    BULK_TRANSFER_STOCK case would perform.  Both warehouses must exist and
    differ; all items are validated before any mutation; on success one
    transactionId is generated for the batch and two log entries per item are
    added. *)
Definition bulkTransferStock (env : Env) (s : AppState) (items : list BulkItem)
    (fromWarehouseId toWarehouseId details actor : string)
    : EngineResult AppState :=
  match find_warehouse (warehouses s) fromWarehouseId,
        find_warehouse (warehouses s) toWarehouseId with
  | Some fromWarehouse, Some toWarehouse =>
      if decide (fromWarehouseId = toWarehouseId)
      then Rejected InvalidOperationError
      else
        match check_items s fromWarehouseId items with
        | Rejected error => Rejected error
        | Done lines =>
            let transactionId := uuid env 0 in
            let '(inv', newLogs) :=
              transfer_lines env transactionId fromWarehouse toWarehouse
                details actor 0 lines (inventory s) in
            Done (with_inventory_logs s inv' (newLogs ++ logs s))
        end
  | _, _ => Rejected NotFoundError
  end.

(** Modelled from the spec: the state of the missing purchase-order code, the
    reducer state together with the purchase orders of section 3. *)
Record Store := mkStore {
  store_state : AppState;
  store_purchaseOrders : list PurchaseOrder;
}.

(** [{ ...po, status }] *)
Definition with_status (po : PurchaseOrder) (status : PurchaseOrderStatus)
    : PurchaseOrder :=
  mkPurchaseOrder (po_id po) (po_orderNumber po) (po_supplierId po)
    (po_issuingCompanyId po) (po_destinationWarehouseId po) (po_issueDate po)
    (po_deliveryDate po) status (po_items po) (po_solicitante po) (po_total po).

(** Modelled from the spec: the lookup of the products of an order's lines by
    the missing purchase-order receipt; an unknown product is a
    NotFoundError. *)
Fixpoint check_lines (s : AppState) (items : list PurchaseOrderItem)
    : EngineResult (list (Product * Z)) :=
  match items with
  | [] => Done []
  | item :: rest =>
      match find_product (products s) (poitem_productId item) with
      | None => Rejected NotFoundError
      | Some product =>
          match check_lines s rest with
          | Rejected error => Rejected error
          | Done lines => Done ((product, poitem_quantity item) :: lines)
          end
      end
  end.

(** Modelled from the spec: the mutation pass of the missing purchase-order
    receipt: one ENTRY movement of [+quantity] per line at the destination
    warehouse through [applyDelta], each logged with the receipt's one
    transactionId. *)
Fixpoint receive_lines (env : Env) (transactionId : string)
    (warehouse : Warehouse) (details actor : string) (k : nat)
    (lines : list (Product * Z)) (inv : list InventoryItem)
    : list InventoryItem * list LogEntry :=
  match lines with
  | [] => (inv, [])
  | (product, quantity) :: rest =>
      let '(newQuantity, inv1) :=
        applyDelta inv (product_id product) (warehouse_id warehouse) quantity in
      let entrada :=
        mkLogEntry (uuid env (S k)) (now env k) (product_name product)
          (product_sku product) (warehouse_name warehouse) ENTRADA quantity
          newQuantity details actor (Some transactionId) in
      let '(inv', newLogs) :=
        receive_lines env transactionId warehouse details actor (S k) rest
          inv1 in
      (inv', entrada :: newLogs)
  end.

(** Modelled from the spec: [receivePurchaseOrder(purchaseOrderId,
    destinationWarehouseId, actor)] of section 4.3, which the missing
    UPDATE_PURCHASE_ORDER case would perform for the status RECIBIDA.  The
    order must exist (NotFoundError) and be EMITIDA (InvalidStateError); the
    warehouse and the products of the lines must exist; then every line is
    posted and the order becomes RECIBIDA. *)
Definition receivePurchaseOrder (env : Env) (st : Store)
    (purchaseOrderId destinationWarehouseId actor : string)
    : EngineResult Store :=
  let s := store_state st in
  match list_find (λ po, po_id po = purchaseOrderId) (store_purchaseOrders st)
  with
  | None => Rejected NotFoundError
  | Some (index, po) =>
      if decide (po_status po = EMITIDA) then
        match find_warehouse (warehouses s) destinationWarehouseId with
        | None => Rejected NotFoundError
        | Some warehouse =>
            match check_lines s (po_items po) with
            | Rejected error => Rejected error
            | Done lines =>
                let transactionId := uuid env 0 in
                let '(inv', newLogs) :=
                  receive_lines env transactionId warehouse
                    ("Recepción de orden de compra " +:+ po_orderNumber po)
                    actor 0 lines (inventory s) in
                Done (mkStore
                        (with_inventory_logs s inv' (newLogs ++ logs s))
                        (<[index := with_status po RECIBIDA]>
                           (store_purchaseOrders st)))
            end
        end
      else Rejected InvalidStateError
  end.

(** The quantity an order's lines bring of one product. *)
Definition ordered_quantity (items : list PurchaseOrderItem) (productId : string)
    : Z :=
  foldr (λ item total,
           if decide (poitem_productId item = productId)
           then poitem_quantity item + total else total)
    0 items.

(** A bulk-transfer item that meets the per-item preconditions. *)
Definition item_ready (s : AppState) (fromWarehouseId : string) (item : BulkItem)
    : Prop :=
  is_Some (find_product (products s) (bulk_productId item))
  ∧ 0 < bulk_quantity item
  ∧ bulk_quantity item
    ≤ quantityOf (inventory s) (bulk_productId item) fromWarehouseId.

(** An item whose source entry is absent or holds less than requested. *)
Definition item_short (s : AppState) (fromWarehouseId : string) (item : BulkItem)
    : Prop :=
  match stock_item (inventory s) (bulk_productId item) fromWarehouseId with
  | None => True
  | Some entry => item_quantity entry < bulk_quantity item
  end.

(** What the two log entries of one transferred line record, against the
    ledger after the batch. *)
Definition transfer_logged (transactionId : string)
    (fromWarehouse toWarehouse : Warehouse) (inv' : list InventoryItem)
    (product : Product) (quantity : Z) (pair : LogEntry * LogEntry) : Prop :=
  log_type pair.1 = SALIDA
  ∧ log_sku pair.1 = product_sku product
  ∧ log_warehouseName pair.1 = warehouse_name fromWarehouse
  ∧ log_quantityChange pair.1 = - quantity
  ∧ log_newQuantityInWarehouse pair.1
    = quantityOf inv' (product_id product) (warehouse_id fromWarehouse)
  ∧ log_transactionId pair.1 = Some transactionId
  ∧ log_type pair.2 = ENTRADA
  ∧ log_sku pair.2 = product_sku product
  ∧ log_warehouseName pair.2 = warehouse_name toWarehouse
  ∧ log_quantityChange pair.2 = quantity
  ∧ log_newQuantityInWarehouse pair.2
    = quantityOf inv' (product_id product) (warehouse_id toWarehouse)
  ∧ log_transactionId pair.2 = Some transactionId.

(** What the log entry of one received line records. *)
Definition receipt_logged (transactionId : string) (warehouse : Warehouse)
    (product : Product) (quantity : Z) (entry : LogEntry) : Prop :=
  log_type entry = ENTRADA
  ∧ log_productName entry = product_name product
  ∧ log_sku entry = product_sku product
  ∧ log_warehouseName entry = warehouse_name warehouse
  ∧ log_quantityChange entry = quantity
  ∧ log_transactionId entry = Some transactionId.

(** The quantity a list of checked lines brings of one product. *)
Definition received_quantity (lines : list (Product * Z)) (productId : string)
    : Z :=
  foldr (λ line total,
           if decide (product_id line.1 = productId)
           then line.2 + total else total)
    0 lines.

(** ** State predicates used in the statements *)

(** No ledger entry holds a negative quantity. *)
Definition ledger_nonneg (inv : list InventoryItem) : Prop :=
  Forall (λ i, 0 ≤ item_quantity i) inv.

(** No log entry of the list carries a transactionId. *)
Definition untagged (ls : list LogEntry) : Prop :=
  Forall (λ e, log_transactionId e = None) ls.

(** Some entry of the users collection has the identity of the logged-in
    user. *)
Definition current_user_listed (s : AppState) : Prop :=
  ∃ u, u ∈ users s ∧ user_id u = user_id (currentUser s).

(** * Properties *)

Local Ltac no_new_logs := exists []; split; [done|constructor].

(** ** [findIndex] against the two array writes of the reducer *)

Section find_update.
Context {A : Type} (P : A → Prop) `{!∀ x, Decision (P x)}.

(** Overwriting the found slot with another element that satisfies the
    predicate leaves it the first hit. *)
Lemma list_find_overwrite_hit (l : list A) i x y :
  list_find P l = Some (i, x) → P y →
  list_find P (<[i:=y]> l) = Some (i, y).
Proof.
  intros (Hi & _ & Hleast)%list_find_Some Hy.
  apply list_find_Some. split_and!; [|done|].
  - apply list_lookup_insert_eq. by eapply lookup_lt_Some.
  - intros j z Hj Hlt. rewrite list_lookup_insert_ne in Hj by lia. eauto.
Qed.

(** Overwriting a slot that does not satisfy the predicate with an element
    that does not either is invisible to the search. *)
Lemma list_find_overwrite_miss (l : list A) i x y :
  l !! i = Some x → ¬ P x → ¬ P y →
  list_find P (<[i:=y]> l) = list_find P l.
Proof.
  revert i. induction l as [|a l IH]; intros [|i] Hi Hx Hy;
    simplify_eq/=; repeat case_decide; try done.
  by rewrite (IH i).
Qed.

(** [push] of a hit when there was none. *)
Lemma list_find_push_hit (l : list A) y :
  list_find P l = None → P y → list_find P (l ++ [y]) = Some (length l, y).
Proof.
  intros Hnone Hy. rewrite list_find_app_r by done. simpl.
  rewrite decide_True by done. simpl. done.
Qed.

(** [push] of a miss. *)
Lemma list_find_push_miss (l : list A) y :
  ¬ P y → list_find P (l ++ [y]) = list_find P l.
Proof.
  intros Hy. induction l as [|a l IH]; simpl.
  - by rewrite decide_False.
  - case_decide; [done|]. by rewrite IH.
Qed.
End find_update.

(** ** Ledger reads after ledger writes *)

Lemma matches_with_quantity pid wid it q :
  matches pid wid (with_quantity it q) ↔ matches pid wid it.
Proof. done. Qed.

Lemma matches_inj pid wid pid' wid' it :
  matches pid wid it → matches pid' wid' it → pid = pid' ∧ wid = wid'.
Proof. intros [<- <-] [<- <-]. done. Qed.

(** Writing a quantity into the entry of [(pid, wid)], read back. *)
Lemma stock_item_write_same inv pid wid i it q :
  list_find (matches pid wid) inv = Some (i, it) →
  stock_item (<[i := with_quantity it q]> inv) pid wid
  = Some (with_quantity it q).
Proof.
  intros Hfind. unfold stock_item.
  rewrite (list_find_overwrite_hit _ _ _ _ _ Hfind); [done|].
  apply list_find_Some in Hfind as (_ & Hm & _). by apply matches_with_quantity.
Qed.

(** Writing the entry of [(pid, wid)] does not change what is read at another
    key. *)
Lemma list_find_write_other inv pid wid pid' wid' i it q :
  list_find (matches pid wid) inv = Some (i, it) →
  (pid', wid') ≠ (pid, wid) →
  list_find (matches pid' wid') (<[i := with_quantity it q]> inv)
  = list_find (matches pid' wid') inv.
Proof.
  intros (Hi & Hm & _)%list_find_Some Hne.
  apply (list_find_overwrite_miss _ _ _ it); [done| |].
  - intros Hm'. destruct (matches_inj _ _ _ _ _ Hm Hm'). congruence.
  - intros Hm'%matches_with_quantity.
    destruct (matches_inj _ _ _ _ _ Hm Hm'). congruence.
Qed.

Lemma quantityOf_found inv pid wid i it :
  list_find (matches pid wid) inv = Some (i, it) →
  quantityOf inv pid wid = item_quantity it.
Proof. unfold quantityOf, stock_item. by intros ->. Qed.

Lemma quantityOf_absent inv pid wid :
  list_find (matches pid wid) inv = None → quantityOf inv pid wid = 0.
Proof. unfold quantityOf, stock_item. by intros ->. Qed.

(** ** Reachable states are the runs from the initial state *)

Lemma run_reachable envs s actions :
  reachable s → reachable (run envs s actions).
Proof.
  revert envs s. induction actions as [|action rest IH]; intros envs s Hs;
    simpl; [done|].
  apply IH. by apply reachable_dispatch.
Qed.

Lemma run_snoc envs s actions action :
  run envs s (actions ++ [action])
  = reducer (envs (length actions)) (run envs s actions) action.
Proof.
  revert envs s. induction actions as [|a rest IH]; intros envs s; simpl;
    [done|].
  by rewrite IH.
Qed.

Lemma run_ext envs envs' s actions :
  (∀ k, (k < length actions)%nat → envs k = envs' k) →
  run envs s actions = run envs' s actions.
Proof.
  revert envs envs' s. induction actions as [|a rest IH];
    intros envs envs' s Hext; simpl; [done|].
  rewrite (Hext 0%nat) by (simpl; lia).
  apply IH. intros k Hk. apply Hext. simpl. lia.
Qed.

Lemma reachable_run s :
  reachable s ↔ ∃ boot envs actions, s = run envs (initialState boot) actions.
Proof.
  split.
  - induction 1 as [boot|env s action _ (boot & envs & actions & ->)].
    + by exists boot, (λ _, sample_env), [].
    + exists boot,
        (λ k, if decide (k = length actions) then env else envs k),
        (actions ++ [action]).
      rewrite run_snoc, decide_True by done. f_equal.
      apply run_ext. intros k Hk. rewrite decide_False by lia. done.
  - intros (boot & envs & actions & ->).
    apply run_reachable, reachable_initial.
Qed.

(** ** The ledger invariant *)

Lemma list_find_nonneg inv pid wid i it :
  ledger_nonneg inv → list_find (matches pid wid) inv = Some (i, it) →
  0 ≤ item_quantity it.
Proof.
  intros Hinv (Hi & _)%list_find_Some.
  exact (Forall_lookup_1 _ _ _ _ Hinv Hi).
Qed.

Lemma mockInventory_nonneg : ledger_nonneg mockInventory.
Proof. unfold ledger_nonneg, mockInventory. repeat constructor; simpl; lia. Qed.

Lemma adjust_stock_nonneg env s pid wid change type details :
  ledger_nonneg (inventory s) →
  ledger_nonneg (inventory (adjust_stock env s pid wid change type details)).
Proof.
  intros Hinv. unfold adjust_stock.
  destruct (find_product _ _) as [product|]; [|done].
  destruct (find_warehouse _ _) as [warehouse|]; [|done].
  destruct (list_find _ _) as [[idx currentItem]|]; simpl.
  - apply Forall_insert; [done|]. simpl. lia.
  - case_decide; [|done]. apply Forall_app_2; [done|].
    repeat constructor; simpl; lia.
Qed.

Lemma transfer_stock_nonneg env s pid from to quantity details :
  ledger_nonneg (inventory s) →
  ledger_nonneg (inventory (transfer_stock env s pid from to quantity details)).
Proof.
  intros Hinv. unfold transfer_stock.
  destruct (find_product _ _) as [product|]; [|done].
  destruct (find_warehouse _ from) as [fromWarehouse|]; [|done].
  destruct (find_warehouse _ to) as [toWarehouse|]; [|done].
  case_decide as Hq; [done|].
  destruct (list_find (matches pid from) _) as [[fromIdx fromItem]|] eqn:Hfrom;
    [|done].
  case_decide as Hlt; [done|].
  assert (ledger_nonneg
            (<[fromIdx := with_quantity fromItem (item_quantity fromItem - quantity)]>
               (inventory s))) as Hmid.
  { apply Forall_insert; [done|]. simpl. lia. }
  destruct (list_find (matches pid to) _) as [[toIdx toItem]|] eqn:Hto; simpl.
  - apply Forall_insert; [done|]. simpl.
    pose proof (list_find_nonneg _ _ _ _ _ Hmid Hto). lia.
  - apply Forall_app_2; [done|]. repeat constructor; simpl; lia.
Qed.

Lemma reducer_nonneg env s action :
  ledger_nonneg (inventory s) → ledger_nonneg (inventory (reducer env s action)).
Proof.
  intros Hinv. destruct action; simpl; try done.
  - unfold delete_product, ledger_nonneg; simpl.
    apply Forall_forall. intros it [_ Hin]%list_elem_of_filter.
    by apply (proj1 (Forall_forall _ _) Hinv).
  - by apply adjust_stock_nonneg.
  - by apply transfer_stock_nonneg.
  - unfold delete_user. by case_decide.
Qed.

(** ** Quantities read after a write *)

Lemma quantityOf_write inv pid wid i it q pid' wid' :
  list_find (matches pid wid) inv = Some (i, it) →
  quantityOf (<[i := with_quantity it q]> inv) pid' wid'
  = if decide ((pid', wid') = (pid, wid)) then q else quantityOf inv pid' wid'.
Proof.
  intros Hfind. case_decide as Hkey.
  - simplify_eq. unfold quantityOf.
    by rewrite (stock_item_write_same _ _ _ _ _ _ Hfind).
  - unfold quantityOf, stock_item.
    by rewrite (list_find_write_other _ _ _ _ _ _ _ _ Hfind Hkey).
Qed.

Lemma quantityOf_push inv pid wid q pid' wid' :
  list_find (matches pid wid) inv = None →
  quantityOf (inv ++ [mkInventoryItem pid wid q]) pid' wid'
  = if decide ((pid', wid') = (pid, wid)) then q else quantityOf inv pid' wid'.
Proof.
  intros Hnone. unfold quantityOf, stock_item. case_decide as Hkey.
  - simplify_eq. by rewrite (list_find_push_hit _ _ _ Hnone).
  - rewrite list_find_push_miss; [done|]. by intros [? ?]; simplify_eq/=.
Qed.

(** ** Transfers *)



(** ** Rejected transfers *)

(** C3, as stated, fails: with 8 units of p2 at w1, a transfer of 10 raises
    no InsufficientStockError; the dispatch completes normally and hands back
    the state it was given. *)
Lemma transfer_insufficient_counterexample :
  quantityOf (inventory s0) "p2" "w1" = 8
  ∧ 8 < 10
  ∧ dispatch sample_env s0 (TRANSFER_STOCK "p2" "w1" "w2" 10 "") = Returned s0
  ∧ dispatch sample_env s0 (TRANSFER_STOCK "p2" "w1" "w2" 10 "")
    ≠ Thrown InsufficientStockError.
Proof. split_and!; [reflexivity|lia|reflexivity|discriminate]. Qed.

(** C3 (amended). When the source ledger entry is absent or holds less than
    the requested quantity, the reducer signals no error: it returns the very
    state it received, so no quantity is modified and no log entry is
    added. *)
Theorem transfer_stock_insufficient_unchanged env s pid from to quantity details :
  (stock_item (inventory s) pid from = None
   ∨ ∃ fromItem, stock_item (inventory s) pid from = Some fromItem
                 ∧ item_quantity fromItem < quantity) →
  reducer env s (TRANSFER_STOCK pid from to quantity details) = s
  ∧ dispatch env s (TRANSFER_STOCK pid from to quantity details) = Returned s.
Proof.
  intros Hsrc.
  assert (reducer env s (TRANSFER_STOCK pid from to quantity details) = s)
    as Hsame.
  { simpl. unfold transfer_stock, stock_item in *.
    destruct (find_product _ _) as [product|]; [|done].
    destruct (find_warehouse _ from) as [fromWarehouse|]; [|done].
    destruct (find_warehouse _ to) as [toWarehouse|]; [|done].
    case_decide; [done|].
    destruct (list_find (matches pid from) (inventory s))
      as [[fromIdx fromItem]|]; [|done].
    destruct Hsrc as [?|(it & ? & Hlt)]; simplify_eq/=.
    by rewrite decide_True. }
  split; [done|]. unfold dispatch. by rewrite Hsame.
Qed.

Lemma transfer_stock_insufficient_unchanged_witness :
  stock_item (inventory s0) "p2" "w1" = Some (mkInventoryItem "p2" "w1" 8)
  ∧ reducer sample_env s0 (TRANSFER_STOCK "p2" "w1" "w2" 10 "") = s0.
Proof.
  split; [reflexivity|].
  apply (transfer_stock_insufficient_unchanged sample_env s0 "p2" "w1" "w2" 10 "").
  right. exists (mkInventoryItem "p2" "w1" 8). split; [reflexivity|simpl; lia].
Defined.

(** A transfer is also handed back unchanged when the product or one of the
    warehouses is unknown, or when the quantity is not positive. *)
Lemma transfer_stock_guard env s pid from to quantity details :
  find_product (products s) pid = None
  ∨ find_warehouse (warehouses s) from = None
  ∨ find_warehouse (warehouses s) to = None
  ∨ quantity ≤ 0 →
  reducer env s (TRANSFER_STOCK pid from to quantity details) = s.
Proof.
  intros Hguard. simpl. unfold transfer_stock.
  destruct (find_product _ _) as [product|]; [|done].
  destruct (find_warehouse _ from) as [fromWarehouse|]; [|done].
  destruct (find_warehouse _ to) as [toWarehouse|]; [|done].
  case_decide; [done|]. destruct Hguard as [?|[?|[?|?]]]; simplify_eq; lia.
Qed.

Lemma with_quantity_id it : with_quantity it (item_quantity it) = it.
Proof. by destruct it. Qed.

(** The ledger after a transfer from a warehouse to itself. *)
Lemma transfer_stock_same_inventory env s pid wid quantity details :
  inventory (reducer env s (TRANSFER_STOCK pid wid wid quantity details))
  = inventory s.
Proof.
  simpl. unfold transfer_stock.
  destruct (find_product _ _) as [product|]; [|done].
  destruct (find_warehouse _ wid) as [warehouse|]; [|done].
  case_decide; [done|].
  destruct (list_find (matches pid wid) (inventory s))
    as [[idx it]|] eqn:Hfind; [|done].
  case_decide; [done|].
  assert (matches pid wid (with_quantity it (item_quantity it - quantity)))
    as Hm.
  { apply matches_with_quantity. by apply list_find_Some in Hfind as (_ & ? & _). }
  rewrite (list_find_overwrite_hit _ _ _ _ _ Hfind Hm). simpl.
  rewrite list_insert_insert_eq. unfold with_quantity at 1. simpl.
  replace (item_quantity it - quantity + quantity) with (item_quantity it)
    by lia.
  apply list_insert_id. apply list_find_Some in Hfind as (Hi & _).
  rewrite Hi. f_equal. by destruct it.
Qed.




(** ** Adjustments *)

(** What one adjustment of an existing product at an existing warehouse does:
    one log entry in front of the log, recording the requested change and the
    clamped result; the ledger reads that result at the adjusted key and is
    unchanged everywhere else. *)
Lemma adjust_stock_effect env s pid wid change type details product warehouse :
  find_product (products s) pid = Some product →
  find_warehouse (warehouses s) wid = Some warehouse →
  let newQuantity := Z.max 0 (quantityOf (inventory s) pid wid + change) in
  let s' := reducer env s (ADJUST_STOCK pid wid change type details) in
  logs s'
    = mkLogEntry (uuid env 0) (now env 0) (product_name product)
        (product_sku product) (warehouse_name warehouse) type change
        newQuantity details (user_name (currentUser s)) None
      :: logs s
  ∧ quantityOf (inventory s') pid wid = newQuantity
  ∧ ∀ pid' wid', (pid', wid') ≠ (pid, wid) →
      quantityOf (inventory s') pid' wid' = quantityOf (inventory s) pid' wid'.
Proof.
  intros Hp Hw. simpl. unfold adjust_stock. rewrite Hp, Hw.
  destruct (list_find (matches pid wid) (inventory s))
    as [[idx currentItem]|] eqn:Hfind; simpl.
  - rewrite (quantityOf_found _ _ _ _ _ Hfind). split_and!; [done| |].
    + rewrite (quantityOf_write _ _ _ _ _ _ _ _ Hfind). by rewrite decide_True.
    + intros pid' wid' Hne.
      rewrite (quantityOf_write _ _ _ _ _ _ _ _ Hfind). by rewrite decide_False.
  - rewrite (quantityOf_absent _ _ _ Hfind). simpl. split_and!; [done| |].
    + case_decide as Hpos; simpl.
      * rewrite (quantityOf_push _ _ _ _ _ _ Hfind). by rewrite decide_True.
      * rewrite (quantityOf_absent _ _ _ Hfind). lia.
    + intros pid' wid' Hne. case_decide as Hpos; simpl; [|done].
      rewrite (quantityOf_push _ _ _ _ _ _ Hfind). by rewrite decide_False.
Qed.

(** The ledger after an adjustment by zero. *)
Lemma zero_adjust_keeps_inventory env s pid wid type details :
  ledger_nonneg (inventory s) →
  inventory (reducer env s (ADJUST_STOCK pid wid 0 type details)) = inventory s.
Proof.
  intros Hinv. simpl. unfold adjust_stock.
  destruct (find_product _ _) as [product|]; [|done].
  destruct (find_warehouse _ _) as [warehouse|]; [|done].
  destruct (list_find (matches pid wid) (inventory s))
    as [[idx currentItem]|] eqn:Hfind; simpl; [|done].
  pose proof (list_find_nonneg _ _ _ _ _ Hinv Hfind).
  replace (Z.max 0 (item_quantity currentItem + 0))
    with (item_quantity currentItem) by lia.
  rewrite with_quantity_id. apply list_insert_id.
  by apply list_find_Some in Hfind as (? & _).
Qed.

(** C9, as stated, fails: an adjustment of p1 at w1 by zero is not rejected;
    it raises no InvalidOperationError and one log entry is added. *)
Lemma adjust_zero_counterexample :
  let s' := reducer sample_env s0 (ADJUST_STOCK "p1" "w1" 0 AJUSTE "") in
  dispatch sample_env s0 (ADJUST_STOCK "p1" "w1" 0 AJUSTE "")
    ≠ Thrown InvalidOperationError
  ∧ length (logs s') = S (length (logs s0))
  ∧ log_quantityChange <$> head (logs s') = Some 0.
Proof. split_and!; [discriminate|reflexivity..]. Qed.

(** C9 (amended). The reducer has no zero-change guard; the guard is in the UI
    handler [handleAdjust], which dispatches nothing when the change is zero.
    If an adjustment by zero of an existing product at an existing warehouse
    is dispatched on a ledger without negative quantities, the reducer raises
    no error, creates and modifies no ledger entry, and adds one log entry
    with change zero that records the current quantity. *)
Theorem adjust_stock_zero env s pid wid type details product warehouse :
  find_product (products s) pid = Some product →
  find_warehouse (warehouses s) wid = Some warehouse →
  ledger_nonneg (inventory s) →
  let s' := reducer env s (ADJUST_STOCK pid wid 0 type details) in
  handleAdjust product wid 0 type details = None
  ∧ dispatch env s (ADJUST_STOCK pid wid 0 type details) = Returned s'
  ∧ inventory s' = inventory s
  ∧ ∃ newLog,
      logs s' = newLog :: logs s
      ∧ log_type newLog = type
      ∧ log_quantityChange newLog = 0
      ∧ log_newQuantityInWarehouse newLog = quantityOf (inventory s) pid wid.
Proof.
  intros Hp Hw Hinv s'. split_and!.
  - unfold handleAdjust. rewrite decide_True; [done|]. by left.
  - done.
  - by apply zero_adjust_keeps_inventory.
  - destruct (adjust_stock_effect env s pid wid 0 type details _ _ Hp Hw)
      as (Hlogs & _ & _).
    eexists. split; [exact Hlogs|]. simpl. split_and!; [done..|].
    assert (0 ≤ quantityOf (inventory s) pid wid); [|lia].
    unfold quantityOf, stock_item.
    destruct (list_find (matches pid wid) (inventory s))
      as [[idx it]|] eqn:Hfind; simpl; [|done].
    exact (list_find_nonneg _ _ _ _ _ Hinv Hfind).
Qed.

Lemma adjust_stock_zero_witness :
  let s' := reducer sample_env s0 (ADJUST_STOCK "p1" "w1" 0 AJUSTE "") in
  inventory s' = inventory s0 ∧ length (logs s') = S (length (logs s0)).
Proof.
  pose proof (adjust_stock_zero sample_env s0 "p1" "w1" AJUSTE "" _ _
                eq_refl eq_refl mockInventory_nonneg)
    as (_ & _ & Hinv & newLog & Hlogs & _).
  split; [exact Hinv|exact (f_equal length Hlogs)].
Defined.

(** ** Transaction identifiers *)

(** C7, as stated, fails: the two log entries of a successful transfer of 10
    units of p1 from w1 to w2 carry no transactionId at all. *)
Lemma transfer_transaction_id_counterexample :
  let s' := reducer sample_env s0 (TRANSFER_STOCK "p1" "w1" "w2" 10 "") in
  length (logs s') = S (S (length (logs s0)))
  ∧ (log_transactionId <$> logs s') !! 0%nat = Some None
  ∧ (log_transactionId <$> logs s') !! 1%nat = Some None
  ∧ ¬ ∃ t, (log_transactionId <$> logs s') !! 0%nat = Some (Some t)
           ∧ (log_transactionId <$> logs s') !! 1%nat = Some (Some t).
Proof.
  split_and!; [reflexivity..|]. intros (t & Ht & _). vm_compute in Ht.
  discriminate.
Qed.

(** Every operation only puts new entries in front of the log, and the
    entries it adds carry no transactionId. *)
Lemma reducer_logs_added env s action :
  ∃ added, logs (reducer env s action) = added ++ logs s ∧ untagged added.
Proof.
  destruct action; simpl; try no_new_logs.
  - eexists [_]. split; [done|]. by repeat constructor.
  - eexists. split; [done|]. unfold untagged.
    apply Forall_forall. intros e He.
    apply elem_of_lookup_imap in He as (k & p & -> & _). done.
  - unfold adjust_stock.
    destruct (find_product _ _) as [product|]; [|no_new_logs].
    destruct (find_warehouse _ _) as [warehouse|]; [|no_new_logs].
    destruct (list_find _ _) as [[idx currentItem]|]; simpl;
      (eexists [_]; split; [done|]; by repeat constructor).
  - unfold transfer_stock.
    destruct (find_product _ _) as [product|]; [|no_new_logs].
    destruct (find_warehouse _ fromWarehouseId) as [fromWarehouse|];
      [|no_new_logs].
    destruct (find_warehouse _ toWarehouseId) as [toWarehouse|];
      [|no_new_logs].
    case_decide; [no_new_logs|].
    destruct (list_find (matches productId fromWarehouseId) _)
      as [[fromIdx fromItem]|]; [|no_new_logs].
    case_decide; [no_new_logs|].
    destruct (list_find (matches productId toWarehouseId) _)
      as [[toIdx toItem]|]; simpl;
      (eexists [_; _]; split; [done|]; by repeat constructor).
  - unfold delete_user. case_decide; no_new_logs.
Qed.

Lemma mockLogs_untagged boot : untagged (mockLogs boot).
Proof. by repeat constructor. Qed.

Lemma reachable_logs_untagged s : reachable s → untagged (logs s).
Proof.
  induction 1 as [boot|env s action _ IH].
  - apply mockLogs_untagged.
  - destruct (reducer_logs_added env s action) as (added & -> & Hadded).
    by apply Forall_app_2.
Qed.

(** C7 (amended). The reducer never generates a transactionId.  Every
    operation only puts new entries in front of the log, and none of the
    entries it adds carries a transactionId: neither the two entries of a
    successful transfer nor the entries of any other operation, whether it
    adds one entry or several.  Hence no log entry of a reachable state
    carries a transactionId. *)
Theorem reducer_logs_untagged env s action :
  (∃ added, logs (reducer env s action) = added ++ logs s ∧ untagged added)
  ∧ (reachable s → ∀ e, e ∈ logs (reducer env s action) →
       log_transactionId e = None).
Proof.
  split; [apply reducer_logs_added|].
  intros Hreach. apply Forall_forall.
  apply reachable_logs_untagged. by apply reachable_dispatch.
Qed.

Lemma reducer_logs_untagged_witness :
  let s' := reducer sample_env s0 (TRANSFER_STOCK "p1" "w1" "w2" 10 "") in
  reachable s0
  ∧ ∀ e, e ∈ logs s' → log_transactionId e = None.
Proof.
  split; [apply reachable_initial|].
  apply (reducer_logs_untagged sample_env s0
           (TRANSFER_STOCK "p1" "w1" "w2" 10 "")).
  apply reachable_initial.
Defined.

(** ** The logged-in user *)

Lemma delete_current_user_unchanged env s :
  reducer env s (DELETE_USER (user_id (currentUser s))) = s.
Proof. simpl. unfold delete_user. by rewrite decide_True. Qed.

Lemma reducer_current_user env s action :
  currentUser (reducer env s action) = currentUser s.
Proof.
  destruct action; simpl; try done.
  - unfold adjust_stock. by repeat case_match.
  - unfold transfer_stock. by repeat case_match.
  - unfold delete_user. by case_decide.
Qed.

Lemma reducer_current_user_listed env s action :
  current_user_listed s → current_user_listed (reducer env s action).
Proof.
  intros (u & Hin & Hid). unfold current_user_listed.
  rewrite reducer_current_user.
  destruct action; simpl; try (by exists u).
  - unfold adjust_stock. repeat case_match; by exists u.
  - unfold transfer_stock. repeat case_match; by exists u.
  - exists u. split; [|done]. apply elem_of_app. by left.
  - exists (if decide (user_id u = user_id user) then user else u). split.
    + apply list_elem_of_fmap. by exists u.
    + case_decide; congruence.
  - unfold delete_user. case_decide as Hcur; [by exists u|]. simpl.
    exists u. split; [|done]. apply list_elem_of_filter. split; [|done].
    congruence.
Qed.

(** C10, as stated, fails: after the administrator edits their own profile,
    [users] holds the edited record while [currentUser] is still the record
    taken at start-up, which is no longer an element of [users]. *)
Lemma current_user_member_counterexample :
  let edited :=
    mkUser "u1" "Admin" "admin@dominio.com" ADMINISTRADOR (Some "adminpassword") in
  let s' := reducer sample_env s0 (UPDATE_USER edited []) in
  reachable s'
  ∧ users s' !! 0%nat = Some edited
  ∧ currentUser s' = adminGeneral
  ∧ currentUser s' ∉ users s'.
Proof.
  split_and!; [apply reachable_dispatch, reachable_initial|reflexivity..|].
  vm_compute. intros Hin.
  repeat (apply elem_of_cons in Hin as [Hin|Hin]; [discriminate Hin|]).
  by apply elem_of_nil in Hin.
Qed.

(** C10 (amended). Dispatching DELETE_USER with the id of the logged-in user
    leaves the entire state unchanged, so in every reachable state the users
    collection still holds an entry with the id of [currentUser]; that entry
    need not be the [currentUser] record itself, which UPDATE_USER does not
    refresh. *)
Theorem current_user_never_deleted :
  (∀ env s, reducer env s (DELETE_USER (user_id (currentUser s))) = s)
  ∧ (∀ s, reachable s → ∃ u, u ∈ users s ∧ user_id u = user_id (currentUser s)).
Proof.
  split; [apply delete_current_user_unchanged|].
  intros s Hreach. change (current_user_listed s).
  induction Hreach as [boot|env s action _ IH].
  - exists adminGeneral. split; [by left|done].
  - by apply reducer_current_user_listed.
Qed.

Lemma current_user_never_deleted_witness :
  let s' := reducer sample_env s0 (DELETE_USER "u2") in
  reachable s' ∧ ∃ u, u ∈ users s' ∧ user_id u = "u1".
Proof.
  assert (reachable (reducer sample_env s0 (DELETE_USER "u2"))) as Hreach
    by apply reachable_dispatch, reachable_initial.
  split; [exact Hreach|].
  exact (proj2 current_user_never_deleted _ Hreach).
Defined.

(** ** Actions without a [case] *)

Lemma reducer_default_bulk_transfer env s items from to details :
  reducer env s (BULK_TRANSFER_STOCK items from to details) = s.
Proof. done. Qed.

Lemma reducer_default_purchase_order env s poId status wid :
  reducer env s (UPDATE_PURCHASE_ORDER poId status wid) = s.
Proof. done. Qed.

(** * Further properties of the reducer and of the views *)

(** ** Totals as the views compute them *)

Lemma foldl_quantities_acc (acc : Z) (items : list InventoryItem) :
  foldl (λ sum item, sum + item_quantity item) acc items
  = acc + sum_quantities items.
Proof.
  unfold sum_quantities. revert acc.
  induction items as [|it items IH]; intros acc; simpl; [lia|].
  rewrite (IH (acc + item_quantity it)), (IH (0 + item_quantity it)). lia.
Qed.

Lemma sum_quantities_cons it items :
  sum_quantities (it :: items) = item_quantity it + sum_quantities items.
Proof.
  unfold sum_quantities at 1. simpl. rewrite foldl_quantities_acc. lia.
Qed.

Lemma sum_quantities_app items1 items2 :
  sum_quantities (items1 ++ items2)
  = sum_quantities items1 + sum_quantities items2.
Proof.
  induction items1 as [|it items1 IH]; simpl.
  - unfold sum_quantities at 2. simpl. lia.
  - rewrite !sum_quantities_cons, IH. lia.
Qed.

Lemma sum_quantities_nonneg items :
  ledger_nonneg items → 0 ≤ sum_quantities items.
Proof.
  induction 1 as [|it items Hit _ IH]; [done|].
  rewrite sum_quantities_cons. lia.
Qed.

Section filtered_sum.
Context (P : InventoryItem → Prop) `{!∀ it, Decision (P it)}.
Context (P_key : ∀ it q, P (with_quantity it q) ↔ P it).

(** A filtered total after the quantity of one entry is overwritten. *)
Lemma filtered_sum_write inv i it q :
  inv !! i = Some it →
  sum_quantities (filter P (<[i := with_quantity it q]> inv))
  = sum_quantities (filter P inv)
    + (if decide (P it) then q - item_quantity it else 0).
Proof.
  revert i. induction inv as [|a inv IH]; intros [|i] Hi; simplify_eq/=.
  - rewrite !filter_cons. destruct (decide (P it)) as [Hp|Hp].
    + rewrite decide_True by by apply P_key.
      rewrite !sum_quantities_cons. simpl. lia.
    + rewrite decide_False by by rewrite P_key. lia.
  - rewrite !filter_cons. specialize (IH i Hi).
    destruct (decide (P a)); rewrite ?sum_quantities_cons, IH; lia.
Qed.

(** A filtered total after an entry is pushed. *)
Lemma filtered_sum_push inv it :
  sum_quantities (filter P (inv ++ [it]))
  = sum_quantities (filter P inv)
    + (if decide (P it) then item_quantity it else 0).
Proof.
  rewrite filter_app, sum_quantities_app. f_equal.
  rewrite filter_cons, filter_nil. case_decide.
  - rewrite sum_quantities_cons. unfold sum_quantities. simpl. lia.
  - done.
Qed.
End filtered_sum.

Lemma filter_all_items (inv : list InventoryItem) :
  filter (λ _ : InventoryItem, True) inv = inv.
Proof.
  induction inv as [|a inv IH]; [done|]. by rewrite filter_cons_True, IH.
Qed.

(** The inventory a transfer produces when it passes every guard. *)
Lemma transfer_stock_applied env s pid from to quantity details
    product fromWarehouse toWarehouse fromIdx fromItem :
  find_product (products s) pid = Some product →
  find_warehouse (warehouses s) from = Some fromWarehouse →
  find_warehouse (warehouses s) to = Some toWarehouse →
  0 < quantity →
  list_find (matches pid from) (inventory s) = Some (fromIdx, fromItem) →
  quantity ≤ item_quantity fromItem →
  let inv1 :=
    <[fromIdx := with_quantity fromItem (item_quantity fromItem - quantity)]>
      (inventory s) in
  inventory (reducer env s (TRANSFER_STOCK pid from to quantity details))
  = match list_find (matches pid to) inv1 with
    | Some (toIdx, toItem) =>
        <[toIdx := with_quantity toItem (item_quantity toItem + quantity)]> inv1
    | None => inv1 ++ [mkInventoryItem pid to quantity]
    end.
Proof.
  intros Hp Hwf Hwt Hpos Hfrom Hle. simpl. unfold transfer_stock.
  rewrite Hp, Hwf, Hwt, decide_False, Hfrom, decide_False by lia.
  by destruct (list_find (matches pid to) _) as [[toIdx toItem]|].
Qed.

(** Either a transfer passes every guard, or it returns its state. *)
Lemma transfer_stock_cases env s pid from to quantity details :
  reducer env s (TRANSFER_STOCK pid from to quantity details) = s
  ∨ ∃ product fromWarehouse toWarehouse fromIdx fromItem,
      find_product (products s) pid = Some product
      ∧ find_warehouse (warehouses s) from = Some fromWarehouse
      ∧ find_warehouse (warehouses s) to = Some toWarehouse
      ∧ 0 < quantity
      ∧ list_find (matches pid from) (inventory s) = Some (fromIdx, fromItem)
      ∧ quantity ≤ item_quantity fromItem.
Proof.
  simpl. unfold transfer_stock.
  destruct (find_product _ _) as [product|]; [|by left].
  destruct (find_warehouse _ from) as [fromWarehouse|]; [|by left].
  destruct (find_warehouse _ to) as [toWarehouse|]; [|by left].
  case_decide; [by left|].
  destruct (list_find (matches pid from) (inventory s))
    as [[fromIdx fromItem]|]; [|by left].
  case_decide; [by left|].
  right. eexists _, _, _, _, _. split_and!; try done; lia.
Qed.

(** How a transfer that passes every guard moves a filtered total, for any
    filter that looks at the key of an entry only. *)
Lemma transfer_stock_filtered_sum (P : InventoryItem → Prop)
    `{!∀ it, Decision (P it)} env s pid from to quantity details
    product fromWarehouse toWarehouse fromIdx fromItem :
  (∀ it it', item_key it = item_key it' → P it → P it') →
  find_product (products s) pid = Some product →
  find_warehouse (warehouses s) from = Some fromWarehouse →
  find_warehouse (warehouses s) to = Some toWarehouse →
  0 < quantity →
  list_find (matches pid from) (inventory s) = Some (fromIdx, fromItem) →
  quantity ≤ item_quantity fromItem →
  sum_quantities
    (filter P (inventory (reducer env s
                            (TRANSFER_STOCK pid from to quantity details))))
  = sum_quantities (filter P (inventory s))
    - (if decide (P (mkInventoryItem pid from 0)) then quantity else 0)
    + (if decide (P (mkInventoryItem pid to 0)) then quantity else 0).
Proof.
  intros Hkey Hp Hwf Hwt Hpos Hfrom Hle.
  assert (∀ it q, P (with_quantity it q) ↔ P it) as HPq.
  { intros it q. split; apply Hkey; by destruct it. }
  assert (∀ it pid' wid', matches pid' wid' it →
            (P it ↔ P (mkInventoryItem pid' wid' 0))) as HPm.
  { intros it pid' wid' [<- <-]. split; apply Hkey; by destruct it. }
  rewrite (transfer_stock_applied _ _ _ _ _ _ _ _ _ _ _ _ Hp Hwf Hwt Hpos
             Hfrom Hle).
  pose proof Hfrom as (Hi & Hm & _)%list_find_Some.
  set (inv1 := <[fromIdx := _]> (inventory s)).
  assert (sum_quantities (filter P inv1)
          = sum_quantities (filter P (inventory s))
            - (if decide (P (mkInventoryItem pid from 0)) then quantity else 0))
    as Hsum1.
  { unfold inv1. rewrite (filtered_sum_write P HPq _ _ _ _ Hi).
    destruct (decide (P fromItem)) as [HP|HP].
    - rewrite decide_True by by apply (HPm _ _ _ Hm). lia.
    - rewrite decide_False by by rewrite <-(HPm _ _ _ Hm). lia. }
  destruct (list_find (matches pid to) inv1) as [[toIdx toItem]|] eqn:Hto.
  - apply list_find_Some in Hto as (Hj & Hmt & _).
    rewrite (filtered_sum_write P HPq _ _ _ _ Hj), Hsum1.
    destruct (decide (P toItem)) as [HP|HP].
    + rewrite (decide_True (P := P (mkInventoryItem pid to 0)))
        by by apply (HPm _ _ _ Hmt).
      lia.
    + rewrite (decide_False (P := P (mkInventoryItem pid to 0)))
        by by rewrite <-(HPm _ _ _ Hmt).
      lia.
  - rewrite (filtered_sum_push P), Hsum1.
    destruct (decide (P (mkInventoryItem pid to quantity))) as [HP|HP].
    + rewrite (decide_True (P := P (mkInventoryItem pid to 0)))
        by (by apply (Hkey (mkInventoryItem pid to quantity))).
      simpl. lia.
    + rewrite (decide_False (P := P (mkInventoryItem pid to 0))); [lia|].
      intros HP'. apply HP. by apply (Hkey (mkInventoryItem pid to 0)).
Qed.





(** ** One ledger entry per product and warehouse *)

Lemma NoDup_fmap_filter {A B} (f : A → B) (P : A → Prop)
    `{!∀ x, Decision (P x)} (l : list A) :
  NoDup (f <$> l) → NoDup (f <$> filter P l).
Proof.
  induction l as [|a l IH]; [done|]. rewrite fmap_cons, NoDup_cons.
  intros [Hnotin Hnodup]. rewrite filter_cons. case_decide; [|by apply IH].
  rewrite fmap_cons. apply NoDup_cons. split; [|by apply IH].
  intros (x & Hfx & [_ Hx]%list_elem_of_filter)%list_elem_of_fmap.
  apply Hnotin. apply list_elem_of_fmap. by exists x.
Qed.

Lemma item_key_write (inv : list InventoryItem) i it q :
  inv !! i = Some it →
  item_key <$> <[i := with_quantity it q]> inv = item_key <$> inv.
Proof.
  intros Hi. rewrite list_fmap_insert. apply list_insert_id.
  by rewrite list_lookup_fmap, Hi.
Qed.

Lemma item_key_absent inv pid wid :
  list_find (matches pid wid) inv = None → (pid, wid) ∉ item_key <$> inv.
Proof.
  intros Hnone%list_find_None (it & Hkey & Hin)%list_elem_of_fmap.
  apply (proj1 (Forall_forall _ _) Hnone it Hin).
  unfold item_key in Hkey. by simplify_eq.
Qed.

Lemma mockInventory_keys_nodup : NoDup (item_key <$> mockInventory).
Proof. apply (bool_decide_unpack _). by vm_compute. Qed.

Lemma adjust_stock_keys_nodup env s pid wid change type details :
  NoDup (item_key <$> inventory s) →
  NoDup (item_key <$>
           inventory (adjust_stock env s pid wid change type details)).
Proof.
  intros Hnodup. unfold adjust_stock.
  destruct (find_product _ _) as [product|]; [|done].
  destruct (find_warehouse _ _) as [warehouse|]; [|done].
  destruct (list_find (matches pid wid) (inventory s))
    as [[idx currentItem]|] eqn:Hfind; simpl.
  - apply list_find_Some in Hfind as (Hi & _). by rewrite item_key_write.
  - case_decide; [|done]. rewrite fmap_app. apply NoDup_app.
    split_and!; [done| |apply NoDup_singleton].
    intros key Hkey ->%list_elem_of_singleton.
    by apply (item_key_absent _ _ _ Hfind).
Qed.

Lemma transfer_stock_keys_nodup env s pid from to quantity details :
  NoDup (item_key <$> inventory s) →
  NoDup (item_key <$>
           inventory (reducer env s
                        (TRANSFER_STOCK pid from to quantity details))).
Proof.
  intros Hnodup.
  destruct (transfer_stock_cases env s pid from to quantity details)
    as [->|(product & fromWarehouse & toWarehouse & fromIdx & fromItem
            & Hp & Hwf & Hwt & Hpos & Hfrom & Hle)]; [done|].
  rewrite (transfer_stock_applied _ _ _ _ _ _ _ _ _ _ _ _ Hp Hwf Hwt Hpos
             Hfrom Hle).
  pose proof Hfrom as (Hi & _)%list_find_Some.
  set (inv1 := <[fromIdx := _]> (inventory s)).
  assert (item_key <$> inv1 = item_key <$> inventory s) as Hkeys
    by by apply item_key_write.
  destruct (list_find (matches pid to) inv1) as [[toIdx toItem]|] eqn:Hto.
  - apply list_find_Some in Hto as (Hj & _).
    by rewrite item_key_write, Hkeys.
  - rewrite fmap_app. apply NoDup_app.
    split_and!; [by rewrite Hkeys| |apply NoDup_singleton].
    intros key Hkey ->%list_elem_of_singleton.
    by apply (item_key_absent _ _ _ Hto).
Qed.

Lemma reducer_keys_nodup env s action :
  NoDup (item_key <$> inventory s) →
  NoDup (item_key <$> inventory (reducer env s action)).
Proof.
  intros Hnodup. destruct action; try done.
  - by apply NoDup_fmap_filter.
  - by apply adjust_stock_keys_nodup.
  - by apply transfer_stock_keys_nodup.
  - simpl. unfold delete_user. by case_decide.
Qed.

Lemma reachable_keys_nodup s :
  reachable s → NoDup (item_key <$> inventory s).
Proof.
  induction 1 as [boot|env s action _ IH].
  - exact mockInventory_keys_nodup.
  - by apply reducer_keys_nodup.
Qed.

(** X3. In every reachable state the ledger holds at most one entry per
    product and warehouse, so looking a product up at a warehouse returns the
    one entry stored for that pair: no entry is shadowed by another. *)
Theorem reachable_ledger_unique s :
  reachable s →
  NoDup (item_key <$> inventory s)
  ∧ ∀ it, it ∈ inventory s →
      stock_item (inventory s) (item_productId it) (item_warehouseId it)
      = Some it.
Proof.
  intros Hnodup%reachable_keys_nodup. split; [done|].
  intros it (i & Hi)%list_elem_of_lookup. unfold stock_item.
  destruct (list_find (matches (item_productId it) (item_warehouseId it))
              (inventory s)) as [[j it']|] eqn:Hfind.
  - apply list_find_Some in Hfind as (Hj & [Hp Hw] & _). simpl. f_equal.
    assert (i = j) as ->; [|congruence].
    apply (NoDup_lookup _ _ _ (item_key it) Hnodup);
      rewrite list_lookup_fmap; [by rewrite Hi|rewrite Hj].
    unfold item_key. simpl. by rewrite Hp, Hw.
  - apply list_find_None in Hfind.
    by destruct (proj1 (Forall_forall _ _) Hfind it
                   (proj2 (list_elem_of_lookup _ _) (ex_intro _ i Hi))).
Qed.

Lemma reachable_ledger_unique_witness :
  let s := reducer sample_env s0 (ADJUST_STOCK "p2" "w3" 4 ENTRADA "") in
  reachable s
  ∧ stock_item (inventory s) "p2" "w3" = Some (mkInventoryItem "p2" "w3" 4).
Proof.
  assert (reachable (reducer sample_env s0
                       (ADJUST_STOCK "p2" "w3" 4 ENTRADA ""))) as Hreach
    by apply reachable_dispatch, reachable_initial.
  split; [exact Hreach|].
  apply (proj2 (reachable_ledger_unique _ Hreach)
           (mkInventoryItem "p2" "w3" 4)).
  vm_compute. repeat constructor.
Defined.

(** ** Ledger changes and the log *)

(** X4. Apart from DELETE_PRODUCT, no action changes the ledger without
    adding at least one log entry. *)
Theorem ledger_change_is_logged env s action :
  inventory (reducer env s action) ≠ inventory s →
  (∃ productId, action = DELETE_PRODUCT productId)
  ∨ (length (logs s) < length (logs (reducer env s action)))%nat.
Proof.
  intros Hchanged. destruct action; simpl in *; try done.
  - left. by eexists.
  - right. unfold adjust_stock in *.
    destruct (find_product _ _) as [product|]; [|done].
    destruct (find_warehouse _ _) as [warehouse|]; [|done].
    destruct (list_find _ _) as [[idx currentItem]|]; simpl; lia.
  - right. unfold transfer_stock in *.
    destruct (find_product _ _) as [product|]; [|done].
    destruct (find_warehouse _ fromWarehouseId) as [fromWarehouse|]; [|done].
    destruct (find_warehouse _ toWarehouseId) as [toWarehouse|]; [|done].
    case_decide; [done|].
    destruct (list_find (matches productId fromWarehouseId) _)
      as [[fromIdx fromItem]|]; [|done].
    case_decide; [done|].
    destruct (list_find (matches productId toWarehouseId) _)
      as [[toIdx toItem]|]; simpl; lia.
  - unfold delete_user in *. by case_decide.
Qed.

Lemma ledger_change_is_logged_witness :
  let s' := reducer sample_env s0 (ADJUST_STOCK "p1" "w1" 5 ENTRADA "") in
  inventory s' ≠ inventory s0
  ∧ (length (logs s0) < length (logs s'))%nat.
Proof.
  assert (inventory (reducer sample_env s0
                       (ADJUST_STOCK "p1" "w1" 5 ENTRADA ""))
          ≠ inventory s0) as Hchanged by (vm_compute; discriminate).
  split; [exact Hchanged|].
  destruct (ledger_change_is_logged sample_env s0
              (ADJUST_STOCK "p1" "w1" 5 ENTRADA "") Hchanged)
    as [[productId Heq]|Hlt]; [discriminate Heq|exact Hlt].
Defined.

(** ** Unknown products and warehouses *)

(** X5. Stock actions that name a product or a warehouse the state does not
    hold are ignored: an adjustment of an unknown product or at an unknown
    warehouse, and a transfer of an unknown product or between warehouses of
    which one is unknown, return the state they were given. *)
Theorem stock_action_unknown_reference env s pid wid wid' quantity type details :
  find_product (products s) pid = None
  ∨ find_warehouse (warehouses s) wid = None →
  reducer env s (ADJUST_STOCK pid wid quantity type details) = s
  ∧ reducer env s (TRANSFER_STOCK pid wid wid' quantity details) = s
  ∧ reducer env s (TRANSFER_STOCK pid wid' wid quantity details) = s.
Proof.
  intros Hunknown. simpl. unfold adjust_stock, transfer_stock.
  destruct Hunknown as [->| ->]; [done|].
  destruct (find_product _ _); [|done].
  split_and!; [done|done|]. by destruct (find_warehouse _ wid').
Qed.

Lemma stock_action_unknown_reference_witness :
  reducer sample_env s0 (ADJUST_STOCK "p9" "w1" 5 ENTRADA "") = s0
  ∧ reducer sample_env s0 (TRANSFER_STOCK "p1" "w9" "w1" 5 "") = s0.
Proof.
  split.
  - apply (stock_action_unknown_reference sample_env s0 "p9" "w1" "w2" 5
             ENTRADA ""). by left.
  - apply (stock_action_unknown_reference sample_env s0 "p1" "w9" "w1" 5
             ENTRADA ""). by right.
Defined.

(** ** Searching a filtered or a mapped array *)

(** [find] on a non-empty array. *)
Lemma find_cons {A} (P : A → Prop) `{!∀ x, Decision (P x)} a (l : list A) :
  snd <$> list_find P (a :: l)
  = if decide (P a) then Some a else snd <$> list_find P l.
Proof.
  simpl. case_decide; [done|]. by destruct (list_find P l) as [[? ?]|].
Qed.

(** Filtering with a condition that every hit satisfies does not change what
    [find] returns. *)
Lemma find_filter_keeps {A} (P Q : A → Prop) `{!∀ x, Decision (P x)}
    `{!∀ x, Decision (Q x)} (l : list A) :
  (∀ x, P x → Q x) →
  snd <$> list_find P (filter Q l) = snd <$> list_find P l.
Proof.
  intros HPQ. induction l as [|a l IH]; [done|].
  rewrite filter_cons, (find_cons P a l).
  destruct (decide (P a)) as [Hp|Hp].
  - rewrite decide_True by auto. by rewrite find_cons, decide_True.
  - case_decide; [|done]. by rewrite find_cons, decide_False.
Qed.

(** Filtering with a condition that no hit satisfies leaves nothing to
    find. *)
Lemma find_filter_drops {A} (P Q : A → Prop) `{!∀ x, Decision (P x)}
    `{!∀ x, Decision (Q x)} (l : list A) :
  (∀ x, P x → ¬ Q x) → list_find P (filter Q l) = None.
Proof.
  intros HPQ. apply list_find_None, Forall_forall.
  intros x [Hq _]%list_elem_of_filter Hp. by apply (HPQ x).
Qed.

Lemma find_app_keeps {A} (P : A → Prop) `{!∀ x, Decision (P x)}
    (l1 l2 : list A) x :
  snd <$> list_find P l1 = Some x → snd <$> list_find P (l1 ++ l2) = Some x.
Proof.
  destruct (list_find P l1) as [[i y]|] eqn:Hfind; [|done].
  intros [= ->]. by rewrite (list_find_app_l _ _ _ _ _ Hfind).
Qed.

(** ** Products *)

(** X6. DELETE_PRODUCT removes the product and every ledger entry of it: the
    product is no longer found, it has no entry and a zero total at every
    warehouse, while the lookups of every other product, the ledger entries
    of every other product and the log are unchanged (no log entry is
    written for the deletion). *)
Theorem delete_product_effect env s pid :
  let s' := reducer env s (DELETE_PRODUCT pid) in
  find_product (products s') pid = None
  ∧ (∀ wid, stock_item (inventory s') pid wid = None)
  ∧ totalQuantity (inventory s') pid = 0
  ∧ (∀ pid', pid' ≠ pid →
       find_product (products s') pid' = find_product (products s) pid'
       ∧ ∀ wid, stock_item (inventory s') pid' wid
                = stock_item (inventory s) pid' wid)
  ∧ logs s' = logs s.
Proof.
  simpl. unfold find_product, stock_item. split_and!.
  - rewrite find_filter_drops; [done|]. by intros p -> ?.
  - intros wid. rewrite find_filter_drops; [done|]. by intros it [-> _] ?.
  - unfold totalQuantity. rewrite list_filter_filter.
    replace (filter _ (inventory s)) with (@nil InventoryItem); [done|].
    symmetry. induction (inventory s) as [|a l IH]; [done|].
    rewrite filter_cons_False; [done|]. by intros [-> ?].
  - intros pid' Hne. split; [|intros wid].
    + apply find_filter_keeps. by intros p ->.
    + apply find_filter_keeps. by intros it [-> _].
  - done.
Qed.

(** X7. Once a product is deleted, adjustments and transfers that still name
    it are ignored: they return the state unchanged, so a deleted product
    never gets back into the ledger or the log. *)
Theorem deleted_product_stock_ignored env env' s pid wid wid' quantity type
    details :
  let s' := reducer env s (DELETE_PRODUCT pid) in
  reducer env' s' (ADJUST_STOCK pid wid quantity type details) = s'
  ∧ reducer env' s' (TRANSFER_STOCK pid wid wid' quantity details) = s'.
Proof.
  intros s'.
  assert (find_product (products s') pid = None) as Hgone.
  { unfold find_product. subst s'. simpl.
    rewrite find_filter_drops; [done|]. by intros p -> ?. }
  simpl. unfold adjust_stock, transfer_stock. by rewrite Hgone.
Qed.

(** X8. ADD_PRODUCT appends the product under a generated id: every product
    that was found by its id is still found, the new product is found by the
    generated id when no product had that id, the ledger is untouched, and
    exactly one CREACIÓN log entry with zero change, zero quantity and
    warehouse N/A is put in front of the log. *)
Theorem add_product_effect env s product :
  let s' := reducer env s (ADD_PRODUCT product) in
  (∀ pid p, find_product (products s) pid = Some p →
            find_product (products s') pid = Some p)
  ∧ (find_product (products s) (uuid env 0) = None →
     find_product (products s') (uuid env 0)
     = Some (with_product_id product (uuid env 0)))
  ∧ inventory s' = inventory s
  ∧ ∃ newLog,
      logs s' = newLog :: logs s
      ∧ log_type newLog = CREACION
      ∧ log_quantityChange newLog = 0
      ∧ log_newQuantityInWarehouse newLog = 0
      ∧ log_warehouseName newLog = "N/A"
      ∧ log_productName newLog = product_name product
      ∧ log_sku newLog = product_sku product
      ∧ log_user newLog = user_name (currentUser s).
Proof.
  simpl. split_and!.
  - intros pid p. apply find_app_keeps.
  - unfold find_product.
    destruct (list_find _ (products s)) as [[i p]|] eqn:Hfind; [done|].
    intros _. by rewrite (list_find_push_hit _ _ _ Hfind).
  - done.
  - eexists. split_and!; done.
Qed.

Lemma add_product_effect_witness :
  let s' := reducer sample_env s0 (ADD_PRODUCT martillo) in
  find_product (products s') "p3" = Some martillo
  ∧ find_product (products s') "uuid-0"
    = Some (with_product_id martillo "uuid-0").
Proof.
  pose proof (add_product_effect sample_env s0 martillo)
    as (Hold & Hnew & _).
  split; [exact (Hold "p3" martillo eq_refl)|exact (Hnew eq_refl)].
Defined.

(** X9. BULK_ADD_PRODUCTS appends one product per row, in order and with the
    row's data, and puts one CREACIÓN log entry per row in front of the log,
    in the same order, each with zero change; the ledger is untouched and
    products found before are still found.  With no rows the state is
    returned as it was. *)
Theorem bulk_add_products_effect env s productsToAdd :
  let s' := reducer env s (BULK_ADD_PRODUCTS productsToAdd) in
  (∃ newProducts,
     products s' = products s ++ newProducts
     ∧ product_sku <$> newProducts = product_sku <$> productsToAdd
     ∧ product_name <$> newProducts = product_name <$> productsToAdd)
  ∧ (∃ newLogs,
       logs s' = newLogs ++ logs s
       ∧ log_sku <$> newLogs = product_sku <$> productsToAdd
       ∧ Forall (λ e, log_type e = CREACION ∧ log_quantityChange e = 0
                      ∧ log_newQuantityInWarehouse e = 0) newLogs)
  ∧ inventory s' = inventory s
  ∧ (∀ pid p, find_product (products s) pid = Some p →
              find_product (products s') pid = Some p)
  ∧ (productsToAdd = [] → s' = s).
Proof.
  simpl. split_and!.
  - eexists. split; [done|].
    rewrite !fmap_imap. split; by rewrite <-imap_const.
  - eexists. split; [done|]. split.
    + rewrite fmap_imap. by rewrite <-imap_const.
    + apply Forall_forall. intros e He.
      by apply elem_of_lookup_imap in He as (k & p & -> & _).
  - done.
  - intros pid p. apply find_app_keeps.
  - intros ->. unfold bulk_add_products, with_products_logs. simpl.
    rewrite app_nil_r. by destruct s.
Qed.

Lemma bulk_add_products_effect_witness :
  let s' := reducer sample_env s0 (BULK_ADD_PRODUCTS [taladro; martillo]) in
  find_product (products s') "p3" = Some martillo
  ∧ length (products s') = 8%nat
  ∧ reducer sample_env s0 (BULK_ADD_PRODUCTS []) = s0.
Proof.
  pose proof (bulk_add_products_effect sample_env s0 [taladro; martillo])
    as (_ & _ & _ & Hold & _).
  pose proof (bulk_add_products_effect sample_env s0 [])
    as (_ & _ & _ & _ & Hempty).
  split_and!; [exact (Hold "p3" martillo eq_refl)|reflexivity|].
  exact (Hempty eq_refl).
Defined.

(** X10. UPDATE_PRODUCT replaces a product in place: the sequence of product
    ids, the ledger and the log are unchanged; a product found under the
    updated id before is found as the updated product afterwards; the lookup
    of every other id is unchanged; and when no product has the id, the
    state is returned as it was. *)
Theorem update_product_effect env s updated :
  let s' := reducer env s (UPDATE_PRODUCT updated) in
  product_id <$> products s' = product_id <$> products s
  ∧ inventory s' = inventory s
  ∧ logs s' = logs s
  ∧ (is_Some (find_product (products s) (product_id updated)) →
     find_product (products s') (product_id updated) = Some updated)
  ∧ (∀ pid, pid ≠ product_id updated →
            find_product (products s') pid = find_product (products s) pid)
  ∧ (find_product (products s) (product_id updated) = None → s' = s).
Proof.
  simpl. unfold find_product. split_and!; try done.
  - induction (products s) as [|a l IH]; [done|].
    rewrite !fmap_cons. f_equal; [by case_decide|exact IH].
  - induction (products s) as [|a l IH]; [by intros [? ?]|].
    rewrite fmap_cons, !find_cons.
    destruct (decide (product_id a = product_id updated)) as [Heq|Hne].
    + by rewrite decide_True.
    + by rewrite decide_False.
  - intros pid Hne. induction (products s) as [|a l IH]; [done|].
    rewrite fmap_cons, !find_cons.
    destruct (decide (product_id a = product_id updated)) as [Heq|Hne'].
    + rewrite !decide_False by congruence. done.
    + case_decide; done.
  - intros Hnone. unfold update_product, with_products.
    replace (_ <$> products s) with (products s); [by destruct s|].
    destruct (list_find _ (products s)) as [[i p]|] eqn:Hfind; [done|].
    apply list_find_None in Hfind. clear Hnone.
    induction Hfind as [|a l Ha _ IH]; [done|].
    rewrite fmap_cons, decide_False by done. by f_equal.
Qed.

Lemma update_product_effect_witness :
  let renamed := with_product_id martillo "p3" in
  let s' := reducer sample_env s0 (UPDATE_PRODUCT renamed) in
  find_product (products s') "p3" = Some renamed
  ∧ reducer sample_env s0 (UPDATE_PRODUCT (with_product_id martillo "p9")) = s0.
Proof.
  pose proof (update_product_effect sample_env s0 (with_product_id martillo "p3"))
    as (_ & _ & _ & Hfound & _).
  pose proof (update_product_effect sample_env s0 (with_product_id martillo "p9"))
    as (_ & _ & _ & _ & _ & Hnone).
  split; [exact (Hfound (mk_is_Some _ _ eq_refl))|exact (Hnone eq_refl)].
Defined.

(** ** Users and warehouse access *)

Lemma permittedIds_app acc1 acc2 uid :
  permittedIds (acc1 ++ acc2) uid
  = permittedIds acc1 uid ++ permittedIds acc2 uid.
Proof. unfold permittedIds. by rewrite filter_app, fmap_app. Qed.

Lemma permittedIds_entries_same uid wids :
  permittedIds (access_entries uid wids) uid = wids.
Proof.
  unfold permittedIds, access_entries.
  induction wids as [|w wids IH]; [done|].
  rewrite fmap_cons, filter_cons_True by done. rewrite fmap_cons. by f_equal.
Qed.

Lemma permittedIds_entries_other uid uid' wids :
  uid' ≠ uid → permittedIds (access_entries uid wids) uid' = [].
Proof.
  intros Hne. unfold permittedIds, access_entries.
  induction wids as [|w wids IH]; [done|].
  rewrite fmap_cons, filter_cons_False; [done|]. simpl. congruence.
Qed.

Lemma permittedIds_revoked acc uid :
  permittedIds (filter (λ a, access_userId a ≠ uid) acc) uid = [].
Proof.
  unfold permittedIds. rewrite list_filter_filter.
  induction acc as [|a acc IH]; [done|].
  rewrite filter_cons_False; [done|]. by intros [? ?].
Qed.

Lemma permittedIds_revoked_other acc uid uid' :
  uid' ≠ uid →
  permittedIds (filter (λ a, access_userId a ≠ uid) acc) uid'
  = permittedIds acc uid'.
Proof.
  intros Hne. unfold permittedIds. rewrite list_filter_filter. f_equal.
  apply list_filter_iff. intros a. split; [by intros [? ?]|].
  intros Ha. split; [done|congruence].
Qed.

(** X11. UPDATE_USER replaces the warehouse access of the user: afterwards
    the warehouse ids granted to the user's id are exactly the ids of the
    action, in order, whatever was granted before (and even when no user has
    that id); the access of every other user id, the sequence of user ids and
    the logged-in user are unchanged. *)
Theorem update_user_access env s updatedUser warehouseIds :
  let s' := reducer env s (UPDATE_USER updatedUser warehouseIds) in
  permittedIds (userWarehouseAccess s') (user_id updatedUser) = warehouseIds
  ∧ (∀ uid, uid ≠ user_id updatedUser →
       permittedIds (userWarehouseAccess s') uid
       = permittedIds (userWarehouseAccess s) uid)
  ∧ user_id <$> users s' = user_id <$> users s
  ∧ currentUser s' = currentUser s.
Proof.
  simpl. split_and!; [| | |done].
  - by rewrite permittedIds_app, permittedIds_revoked,
      permittedIds_entries_same.
  - intros uid Hne.
    rewrite permittedIds_app, permittedIds_revoked_other,
      permittedIds_entries_other by done.
    by rewrite app_nil_r.
  - induction (users s) as [|a l IH]; [done|].
    rewrite !fmap_cons. f_equal; [by case_decide|exact IH].
Qed.

(** X12. ADD_USER appends the user under a generated id and grants that id
    the warehouse ids of the action after whatever the id was granted
    before, so exactly those ids when the id is fresh; existing users and the
    access of every other id are unchanged. *)
Theorem add_user_access env s user warehouseIds :
  let s' := reducer env s (ADD_USER user warehouseIds) in
  users s' = users s ++ [with_user_id user (uuid env 0)]
  ∧ permittedIds (userWarehouseAccess s') (uuid env 0)
    = permittedIds (userWarehouseAccess s) (uuid env 0) ++ warehouseIds
  ∧ (∀ uid, uid ≠ uuid env 0 →
       permittedIds (userWarehouseAccess s') uid
       = permittedIds (userWarehouseAccess s) uid)
  ∧ currentUser s' = currentUser s.
Proof.
  simpl. split_and!; [done| | |done].
  - by rewrite permittedIds_app, permittedIds_entries_same.
  - intros uid Hne.
    rewrite permittedIds_app, permittedIds_entries_other by done.
    by rewrite app_nil_r.
Qed.

(** X13. DELETE_USER of a user other than the logged-in one removes every
    user with that id and every access entry of that id, and nothing else:
    the other users, the access of the other ids, the products, the ledger
    and the log are as before. *)
Theorem delete_user_effect env s userId :
  userId ≠ user_id (currentUser s) →
  let s' := reducer env s (DELETE_USER userId) in
  (∀ u, u ∈ users s' ↔ u ∈ users s ∧ user_id u ≠ userId)
  ∧ permittedIds (userWarehouseAccess s') userId = []
  ∧ (∀ uid, uid ≠ userId →
       permittedIds (userWarehouseAccess s') uid
       = permittedIds (userWarehouseAccess s) uid)
  ∧ products s' = products s
  ∧ inventory s' = inventory s
  ∧ logs s' = logs s
  ∧ currentUser s' = currentUser s.
Proof.
  intros Hne. simpl. unfold delete_user. rewrite decide_False by done. simpl.
  split_and!; try done.
  - intros u. rewrite list_elem_of_filter. tauto.
  - apply permittedIds_revoked.
  - intros uid Huid. by apply permittedIds_revoked_other.
Qed.

Lemma delete_user_effect_witness :
  let s' := reducer sample_env s0 (DELETE_USER "u2") in
  permittedIds (userWarehouseAccess s0) "u2" = ["w1"; "w2"]
  ∧ permittedIds (userWarehouseAccess s') "u2" = []
  ∧ permittedIds (userWarehouseAccess s') "u3" = ["w3"].
Proof.
  pose proof (delete_user_effect sample_env s0 "u2" ltac:(discriminate))
    as (_ & Hgone & Hother & _).
  split_and!; [reflexivity|exact Hgone|].
  exact (Hother "u3" ltac:(discriminate)).
Defined.

Lemma reachable_current_user_initial s :
  reachable s → currentUser s = adminGeneral.
Proof.
  induction 1 as [boot|env s action _ IH]; [done|].
  by rewrite reducer_current_user.
Qed.

(** X14. No action of the reducer changes the logged-in user: in every
    reachable state [currentUser] is the start-up administrator record, and
    the hook [usePermittedWarehouses] therefore returns every warehouse of
    the state, whatever the access table holds. *)
Theorem reachable_permitted_warehouses s :
  reachable s →
  currentUser s = adminGeneral ∧ usePermittedWarehouses s = warehouses s.
Proof.
  intros Hcur%reachable_current_user_initial. split; [done|].
  unfold usePermittedWarehouses. by rewrite Hcur.
Qed.

Lemma reachable_permitted_warehouses_witness :
  let s' :=
    reducer sample_env s0
      (UPDATE_USER (mkUser "u1" "Admin" "a@b.c" EMPLEADO None) []) in
  reachable s' ∧ length (usePermittedWarehouses s') = 3%nat.
Proof.
  assert (reachable
            (reducer sample_env s0
               (UPDATE_USER (mkUser "u1" "Admin" "a@b.c" EMPLEADO None) [])))
    as Hreach by apply reachable_dispatch, reachable_initial.
  split; [exact Hreach|].
  exact (f_equal length (proj2 (reachable_permitted_warehouses _ Hreach))).
Defined.

(** ** The bulk transfer modal *)

Lemma modal_items_ok ps inv from items :
  modal_items ps inv from items →
  Forall (modal_item_ok inv from) items
  ∧ NoDup ((λ item, product_id (transfer_product item)) <$> items).
Proof.
  induction 1 as [|prev product _ [IHok IHnodup] Havail
                  |prev productId newQuantity _ [IHok IHnodup]
                  |prev productId _ [IHok IHnodup]].
  - split; constructor.
  - unfold availableProducts in Havail. case_decide; [by inversion Havail|].
    apply list_elem_of_filter in Havail as [[Hstock Hfresh] _].
    unfold handleAddProduct, has_stock in *.
    destruct (stock_item inv (product_id product) from) as [stockItem|] eqn:Hs;
      [|done].
    rewrite decide_False by lia. split.
    + apply Forall_app_2; [done|]. repeat constructor; simpl; try lia.
      unfold quantityOf. by rewrite Hs.
    + rewrite fmap_app. apply NoDup_app.
      split_and!; [done| |apply NoDup_singleton].
      by intros id Hid ->%list_elem_of_singleton.
  - split.
    + unfold handleQuantityChange. apply Forall_fmap.
      eapply Forall_impl; [exact IHok|]. intros item (H0 & Hmax & Hpos & Hq).
      simpl. case_decide; [|done]. repeat split; simpl; try done; lia.
    + unfold handleQuantityChange. rewrite <-list_fmap_compose.
      erewrite list_fmap_ext; [exact IHnodup|].
      intros i item _. simpl. by case_decide.
  - split.
    + unfold handleRemoveItem. apply Forall_forall.
      intros item [_ Hin]%list_elem_of_filter.
      by apply (proj1 (Forall_forall _ _) IHok).
    + by apply NoDup_fmap_filter.
Qed.

(** X15. Whatever the user did in the bulk transfer modal (adding offered
    products, typing quantities, removing rows), a confirmed transfer
    dispatches one BULK_TRANSFER_STOCK action whose item list is not empty,
    names each product at most once, and asks for each product a positive
    quantity that the source warehouse holds. *)
Theorem bulk_transfer_payload_within_stock ps inv from to details items action :
  modal_items ps inv from items →
  handleConfirmTransfer items from to details = Some action →
  ∃ payload sentDetails,
    action = BULK_TRANSFER_STOCK payload from to sentDetails
    ∧ payload ≠ []
    ∧ Forall (λ b, 0 < bulk_quantity b
                   ∧ bulk_quantity b ≤ quantityOf inv (bulk_productId b) from)
        payload
    ∧ NoDup (bulk_productId <$> payload)
    ∧ sentDetails ≠ "".
Proof.
  intros [Hok Hnodup]%modal_items_ok. unfold handleConfirmTransfer.
  case_decide as Hguard; [done|]. intros [= <-].
  eexists _, _. split; [done|]. split_and!.
  - intros Hnil. apply Hguard. left. by rewrite Hnil.
  - apply Forall_fmap, Forall_forall.
    intros item [Hpos Hin]%list_elem_of_filter.
    destruct (proj1 (Forall_forall _ _) Hok item Hin) as (_ & Hmax & _ & Hq).
    simpl. split; [done|]. by rewrite <-Hq.
  - rewrite <-list_fmap_compose. by apply NoDup_fmap_filter.
  - by case_decide.
Qed.

Lemma bulk_transfer_payload_within_stock_witness :
  let items :=
    handleQuantityChange (handleAddProduct mockInventory "w1" [] taladro)
      "p1" 40 in
  modal_items mockProducts mockInventory "w1" items
  ∧ handleConfirmTransfer items "w1" "w2" ""
    = Some (BULK_TRANSFER_STOCK [mkBulkItem "p1" 25] "w1" "w2"
              "Transferencia de 1 productos.")
  ∧ 25 ≤ quantityOf mockInventory "p1" "w1".
Proof.
  assert (modal_items mockProducts mockInventory "w1"
            (handleQuantityChange
               (handleAddProduct mockInventory "w1" [] taladro) "p1" 40))
    as Hmodal.
  { apply modal_change, modal_add; [apply modal_open|].
    vm_compute. repeat constructor. }
  destruct (bulk_transfer_payload_within_stock mockProducts mockInventory
              "w1" "w2" "" _ _ Hmodal eq_refl)
    as (payload & sent & Haction & _ & Hbounds & _).
  injection Haction as <- <-.
  split_and!; [exact Hmodal|reflexivity|].
  exact (proj2 (Forall_inv Hbounds)).
Defined.

(** X16. When the confirm button of the bulk transfer modal is enabled and no
    row holds a negative quantity, confirming dispatches a BULK_TRANSFER_STOCK
    action between two different, selected warehouses with at least one
    item. *)
Theorem bulk_transfer_enabled_dispatches items from to details :
  Forall (λ item, 0 ≤ transfer_quantity item) items →
  ¬ isTransferDisabled items from to →
  ∃ payload sentDetails,
    handleConfirmTransfer items from to details
    = Some (BULK_TRANSFER_STOCK payload from to sentDetails)
    ∧ payload ≠ [] ∧ from ≠ "" ∧ to ≠ "" ∧ from ≠ to.
Proof.
  intros Hnonneg Henabled. unfold isTransferDisabled in Henabled.
  assert (from ≠ "" ∧ to ≠ "" ∧ from ≠ to) as (Hf & Ht & Hne) by tauto.
  assert (filter (λ item, 0 < transfer_quantity item) items ≠ []) as Hpayload.
  { intros Hnil. apply Henabled. do 4 right.
    apply Forall_forall. intros item Hin.
    pose proof (proj1 (Forall_forall _ _) Hnonneg item Hin) as H0.
    destruct (decide (0 < transfer_quantity item)) as [Hpos|]; [|simpl in *; lia].
    by destruct (filter_nil_not_elem_of _ _ item Hnil Hpos). }
  unfold handleConfirmTransfer. rewrite decide_False.
  - eexists _, _. split; [done|]. split_and!; try done.
    intros Hnil%fmap_nil_inv. done.
  - rewrite length_fmap. intros [Hlen|[?|?]]; try done.
    by apply nil_length_inv in Hlen.
Qed.

Lemma bulk_transfer_enabled_dispatches_witness :
  let items := [mkItemToTransfer taladro 5 25; mkItemToTransfer martillo 0 80] in
  ¬ isTransferDisabled items "w1" "w2"
  ∧ handleConfirmTransfer items "w1" "w2" "envío"
    = Some (BULK_TRANSFER_STOCK [mkBulkItem "p1" 5] "w1" "w2" "envío").
Proof.
  assert (¬ isTransferDisabled
              [mkItemToTransfer taladro 5 25; mkItemToTransfer martillo 0 80]
              "w1" "w2") as Henabled
    by (apply (bool_decide_eq_false_1 _); vm_compute; reflexivity).
  split; [exact Henabled|].
  destruct (bulk_transfer_enabled_dispatches
              [mkItemToTransfer taladro 5 25; mkItemToTransfer martillo 0 80]
              "w1" "w2" "envío"
              ltac:(repeat constructor; simpl; lia) Henabled)
    as (payload & sent & Heq & _).
  reflexivity.
Defined.

(** ** Adjustments as the adjust modal dispatches them *)

Lemma quantityOf_nonneg inv pid wid :
  ledger_nonneg inv → 0 ≤ quantityOf inv pid wid.
Proof.
  intros Hinv. unfold quantityOf, stock_item.
  destruct (list_find (matches pid wid) inv) as [[idx it]|] eqn:Hfind;
    simpl; [|done].
  exact (list_find_nonneg _ _ _ _ _ Hinv Hfind).
Qed.

(** ** Stock status *)

Lemma totalQuantity_nonneg inv pid :
  ledger_nonneg inv → 0 ≤ totalQuantity inv pid.
Proof.
  intros Hinv. apply sum_quantities_nonneg, Forall_forall.
  intros it [_ Hin]%list_elem_of_filter.
  by apply (proj1 (Forall_forall _ _) Hinv).
Qed.

(** X18. On a ledger without negative quantities the dashboard and the
    product list classify every product alike: its total is not negative, it
    is listed as out of stock exactly when the product list shows it red, and
    as low on stock exactly when the product list shows it yellow; it is in
    neither list exactly when it is shown green. *)
Theorem stock_status_agrees ps inv p :
  ledger_nonneg inv →
  p ∈ productTotals ps inv →
  0 ≤ p.2
  ∧ (p ∈ outOfStockItems (productTotals ps inv)
     ↔ getStockStatusClass p = StatusRed)
  ∧ (p ∈ lowStockItems (productTotals ps inv)
     ↔ getStockStatusClass p = StatusYellow)
  ∧ (((p ∉ outOfStockItems (productTotals ps inv))
      ∧ (p ∉ lowStockItems (productTotals ps inv)))
     ↔ getStockStatusClass p = StatusGreen).
Proof.
  intros Hinv Hin.
  assert (0 ≤ p.2) as Hnonneg.
  { apply list_elem_of_fmap in Hin as (product & -> & _). simpl.
    by apply totalQuantity_nonneg. }
  unfold outOfStockItems, lowStockItems, getStockStatusClass.
  rewrite !list_elem_of_filter.
  split; [done|].
  assert (p.2 = 0 ∨ 0 < p.2) as [H0|Hpos] by lia.
  - assert (¬ 0 < p.2) by lia. rewrite decide_True by done.
    intuition discriminate.
  - assert (p.2 ≠ 0) by lia. rewrite decide_False by done.
    destruct (decide (p.2 ≤ product_lowStockThreshold p.1));
      intuition discriminate.
Qed.

Lemma stock_status_agrees_witness :
  let totals := productTotals mockProducts mockInventory in
  (martillo, 127) ∈ totals
  ∧ getStockStatusClass (martillo, 127) = StatusGreen
  ∧ (martillo, 127) ∉ lowStockItems totals.
Proof.
  assert ((martillo, 127) ∈ productTotals mockProducts mockInventory) as Hin
    by (vm_compute; repeat constructor).
  destruct (stock_status_agrees mockProducts mockInventory (martillo, 127)
              mockInventory_nonneg Hin) as (_ & _ & _ & Hgreen).
  split_and!; [exact Hin|reflexivity|].
  exact (proj2 (proj2 Hgreen eq_refl)).
Defined.

(** ** Confirming a CSV import *)

(** X19. Confirming an import reports as successes the rows marked valid and
    as failures the others; the two counts add up to the number of rows.
    Exactly the successes are added: the state gains that many products and
    that many log entries and the ledger is untouched; with no valid row
    nothing is dispatched. *)
Theorem import_summary_matches env s parsedData :
  let dispatched := (handleConfirmImport parsedData).1 in
  let success := (handleConfirmImport parsedData).2.1 in
  let failed := (handleConfirmImport parsedData).2.2 in
  let s' := apply_dispatched env s dispatched in
  (success + failed = length parsedData)%nat
  ∧ success = length (filter (λ d, row_isValid d = true) parsedData)
  ∧ length (products s') = (length (products s) + success)%nat
  ∧ length (logs s') = (length (logs s) + success)%nat
  ∧ inventory s' = inventory s
  ∧ (dispatched = None ↔ success = 0%nat).
Proof.
  simpl. rewrite !length_fmap.
  pose proof (length_filter (λ d, row_isValid d = true) parsedData) as Hle.
  split_and!; [lia|done| | | |].
  - case_decide as Hpos; simpl; [|lia].
    rewrite length_app, length_imap, length_fmap. lia.
  - case_decide as Hpos; simpl; [|lia].
    rewrite length_app, length_imap, length_fmap. lia.
  - by case_decide.
  - case_decide; split; try done; lia.
Qed.

(** ** Ledger entries are created late and never dropped *)

(** X20. Adjusting an existing product at an existing warehouse where the
    ledger has no entry for it: a positive change appends one entry holding
    exactly the change; a zero or negative change leaves the ledger as it is
    (no zero entry is created), yet a log entry recording the requested
    change and a new quantity of zero is still written. *)
Theorem adjust_stock_absent_entry env s pid wid change type details
    product warehouse :
  find_product (products s) pid = Some product →
  find_warehouse (warehouses s) wid = Some warehouse →
  stock_item (inventory s) pid wid = None →
  let s' := reducer env s (ADJUST_STOCK pid wid change type details) in
  (0 < change →
   inventory s' = inventory s ++ [mkInventoryItem pid wid change])
  ∧ (change ≤ 0 →
     inventory s' = inventory s
     ∧ ∃ newLog, logs s' = newLog :: logs s
                 ∧ log_quantityChange newLog = change
                 ∧ log_newQuantityInWarehouse newLog = 0).
Proof.
  intros Hp Hw Habsent. simpl. unfold adjust_stock. rewrite Hp, Hw.
  unfold stock_item in Habsent.
  destruct (list_find (matches pid wid) (inventory s)) as [[i it]|];
    [done|]. simpl. split; intros Hchange.
  - rewrite decide_True by lia. simpl. do 3 f_equal. lia.
  - rewrite decide_False by lia. simpl. split; [done|].
    eexists. split_and!; [done..|]. simpl. lia.
Qed.

Lemma adjust_stock_absent_entry_witness :
  stock_item (inventory s0) "p6" "w3" = None
  ∧ inventory (reducer sample_env s0 (ADJUST_STOCK "p6" "w3" 7 ENTRADA ""))
    = inventory s0 ++ [mkInventoryItem "p6" "w3" 7]
  ∧ inventory (reducer sample_env s0 (ADJUST_STOCK "p6" "w3" (-7) SALIDA ""))
    = inventory s0.
Proof.
  pose proof (adjust_stock_absent_entry sample_env s0 "p6" "w3" 7 ENTRADA ""
                _ _ eq_refl eq_refl eq_refl) as (Hpos & _).
  pose proof (adjust_stock_absent_entry sample_env s0 "p6" "w3" (-7) SALIDA ""
                _ _ eq_refl eq_refl eq_refl) as (_ & Hneg).
  split_and!; [reflexivity|exact (Hpos ltac:(lia))|].
  exact (proj1 (Hneg ltac:(lia))).
Defined.

(** X21. No action other than DELETE_PRODUCT removes or reorders ledger
    entries: the sequence of (product, warehouse) keys after the action is
    the sequence before it, followed by at most one new key.  In particular
    an entry whose quantity drops to zero stays in the ledger. *)
Theorem ledger_keys_persist env s action :
  (∀ productId, action ≠ DELETE_PRODUCT productId) →
  ∃ added,
    item_key <$> inventory (reducer env s action)
    = (item_key <$> inventory s) ++ added
    ∧ (length added ≤ 1)%nat.
Proof.
  intros Hnot.
  assert (∀ inv : list InventoryItem,
            ∃ added, item_key <$> inv = (item_key <$> inv) ++ added
                     ∧ (length added ≤ 1)%nat) as Hsame.
  { intros inv. exists []. by rewrite app_nil_r; simpl; split; [|lia]. }
  destruct action; try apply Hsame.
  - by destruct (Hnot productId).
  - simpl. unfold adjust_stock.
    destruct (find_product _ _) as [product|]; [|apply Hsame].
    destruct (find_warehouse _ _) as [warehouse|]; [|apply Hsame].
    destruct (list_find _ (inventory s)) as [[idx currentItem]|] eqn:Hfind;
      simpl.
    + apply list_find_Some in Hfind as (Hi & _).
      rewrite item_key_write by done. apply Hsame.
    + case_decide; [|apply Hsame].
      eexists [_]. rewrite fmap_app. split; [done|simpl; lia].
  - destruct (transfer_stock_cases env s productId fromWarehouseId
                toWarehouseId quantity details)
      as [->|(product & fromWarehouse & toWarehouse & fromIdx & fromItem
              & Hp & Hwf & Hwt & Hpos & Hfrom & Hle)]; [apply Hsame|].
    rewrite (transfer_stock_applied _ _ _ _ _ _ _ _ _ _ _ _ Hp Hwf Hwt Hpos
               Hfrom Hle).
    pose proof Hfrom as (Hi & _)%list_find_Some.
    set (inv1 := <[fromIdx := _]> (inventory s)).
    assert (item_key <$> inv1 = item_key <$> inventory s) as Hkeys
      by by apply item_key_write.
    destruct (list_find (matches productId toWarehouseId) inv1)
      as [[toIdx toItem]|] eqn:Hto.
    + apply list_find_Some in Hto as (Hj & _).
      rewrite item_key_write, Hkeys by done. apply Hsame.
    + eexists [_]. rewrite fmap_app, Hkeys. split; [done|simpl; lia].
  - simpl. unfold delete_user. case_decide; apply Hsame.
Qed.

Lemma ledger_keys_persist_witness :
  let s' := reducer sample_env s0 (TRANSFER_STOCK "p2" "w1" "w3" 8 "") in
  stock_item (inventory s') "p2" "w1" = Some (mkInventoryItem "p2" "w1" 0)
  ∧ ∃ added, item_key <$> inventory s' = (item_key <$> inventory s0) ++ added.
Proof.
  split; [reflexivity|].
  destruct (ledger_keys_persist sample_env s0
              (TRANSFER_STOCK "p2" "w1" "w3" 8 "") ltac:(discriminate))
    as (added & Hkeys & _).
  exists added. exact Hkeys.
Defined.

(** ** Warehouses *)

(** X22. ADD_WAREHOUSE appends the warehouse under a generated id: every
    warehouse that was found by its id is still found, the new one is found
    by the generated id when no warehouse had that id, and neither the
    ledger nor the log changes (unlike a product, a new warehouse gets no
    log entry). *)
Theorem add_warehouse_effect env s warehouse :
  let s' := reducer env s (ADD_WAREHOUSE warehouse) in
  (∀ wid w, find_warehouse (warehouses s) wid = Some w →
            find_warehouse (warehouses s') wid = Some w)
  ∧ (find_warehouse (warehouses s) (uuid env 0) = None →
     find_warehouse (warehouses s') (uuid env 0)
     = Some (with_warehouse_id warehouse (uuid env 0)))
  ∧ inventory s' = inventory s
  ∧ logs s' = logs s
  ∧ getWarehouseStock (inventory s') (uuid env 0)
    = getWarehouseStock (inventory s) (uuid env 0).
Proof.
  simpl. split_and!; try done.
  - intros wid w. apply find_app_keeps.
  - unfold find_warehouse.
    destruct (list_find _ (warehouses s)) as [[i w]|] eqn:Hfind; [done|].
    intros _. by rewrite (list_find_push_hit _ _ _ Hfind).
Qed.

Lemma add_warehouse_effect_witness :
  let s' := reducer sample_env s0 (ADD_WAREHOUSE (mkWarehouse "" "Sur" "Ica")) in
  find_warehouse (warehouses s') "uuid-0" = Some (mkWarehouse "uuid-0" "Sur" "Ica")
  ∧ length (warehouses s') = 4%nat.
Proof.
  pose proof (add_warehouse_effect sample_env s0 (mkWarehouse "" "Sur" "Ica"))
    as (_ & Hnew & _).
  split; [exact (Hnew eq_refl)|reflexivity].
Defined.

(** ** Closed instances of the statements above *)

Lemma delete_product_effect_witness :
  let s' := reducer sample_env s0 (DELETE_PRODUCT "p1") in
  find_product (products s') "p1" = None
  ∧ stock_item (inventory s') "p3" "w1" = Some (mkInventoryItem "p3" "w1" 80).
Proof.
  pose proof (delete_product_effect sample_env s0 "p1")
    as (Hgone & _ & _ & Hother & _).
  split; [exact Hgone|].
  destruct (Hother "p3" ltac:(discriminate)) as [_ Hstock].
  exact (Hstock "w1").
Defined.

Lemma update_user_access_witness :
  let s' :=
    reducer sample_env s0
      (UPDATE_USER (mkUser "u2" "Gerente" "g@d.com" GERENTE None) ["w3"]) in
  permittedIds (userWarehouseAccess s0) "u2" = ["w1"; "w2"]
  ∧ permittedIds (userWarehouseAccess s') "u2" = ["w3"]
  ∧ permittedIds (userWarehouseAccess s') "u3" = ["w3"].
Proof.
  pose proof (update_user_access sample_env s0
                (mkUser "u2" "Gerente" "g@d.com" GERENTE None) ["w3"])
    as (Hnew & Hother & _).
  split_and!; [reflexivity|exact Hnew|].
  exact (Hother "u3" ltac:(discriminate)).
Defined.

Lemma add_user_access_witness :
  let s' :=
    reducer sample_env s0
      (ADD_USER (mkUser "" "Nuevo" "n@d.com" EMPLEADO None) ["w2"; "w3"]) in
  permittedIds (userWarehouseAccess s') "uuid-0" = ["w2"; "w3"]
  ∧ permittedIds (userWarehouseAccess s') "u2" = ["w1"; "w2"].
Proof.
  pose proof (add_user_access sample_env s0
                (mkUser "" "Nuevo" "n@d.com" EMPLEADO None) ["w2"; "w3"])
    as (_ & Hnew & Hother & _).
  split; [exact Hnew|].
  exact (Hother "u2" ltac:(discriminate)).
Defined.

Lemma import_summary_matches_witness :
  let parsedData := [mkParsedRow taladro true; mkParsedRow martillo false] in
  (handleConfirmImport parsedData).2 = (1%nat, 1%nat)
  ∧ length (products
              (apply_dispatched sample_env s0 (handleConfirmImport parsedData).1))
    = (length (products s0) + 1)%nat.
Proof.
  pose proof (import_summary_matches sample_env s0
                [mkParsedRow taladro true; mkParsedRow martillo false])
    as (_ & _ & Hproducts & _).
  split; [reflexivity|exact Hproducts].
Defined.

(** * The reducer over JavaScript numbers *)

(** ** Arithmetic on numbers *)

Lemma round_double_safe z : safe_integer z → Js.round_double z = Js.Fin z.
Proof.
  unfold safe_integer, Js.round_double. intros Hz.
  assert ((Z.abs z <? 2 ^ 53) = true) as -> by (apply Z.ltb_lt; lia). done.
Qed.

Lemma round_double_not_nan z : Js.round_double z ≠ Js.NaN.
Proof. unfold Js.round_double. by repeat case_match. Qed.

Lemma round_double_nonneg z : 0 ≤ z → js_nonneg (Js.round_double z).
Proof.
  intros Hz. unfold Js.round_double, js_nonneg. cbv zeta.
  destruct (Z.abs z <? 2 ^ 53); [by apply Z.leb_le|].
  set (shift := Z.log2 (Z.abs z) - 52).
  match goal with
  | |- context [Z.shiftl ?x shift] => set (q' := x)
  end.
  assert (0 ≤ Z.shiftr (Z.abs z) shift) as Hq by (apply Z.shiftr_nonneg; lia).
  assert (0 ≤ q') as Hq'.
  { unfold q'. destruct (_ || _); lia. }
  destruct (2 ^ 1024 <=? _).
  - by rewrite (proj2 (Z.ltb_ge z 0)).
  - simpl. apply Z.leb_le.
    pose proof (proj2 (Z.shiftl_nonneg q' shift) Hq'). nia.
Qed.

Lemma js_max_zero_fin z : Js.max (Js.Fin 0) (Js.Fin z) = Js.Fin (Z.max 0 z).
Proof.
  simpl. destruct (0 <? z) eqn:Hlt; f_equal.
  - apply Z.ltb_lt in Hlt. lia.
  - apply Z.ltb_ge in Hlt. lia.
Qed.

Lemma js_max_zero_nonneg x : x ≠ Js.NaN → js_nonneg (Js.max (Js.Fin 0) x).
Proof.
  intros Hx. destruct x as [z| | |]; [|done..].
  rewrite js_max_zero_fin. apply Z.leb_le. lia.
Qed.

Lemma js_add_fin_not_nan x b :
  js_nonneg x → Js.add x (Js.Fin b) ≠ Js.NaN.
Proof.
  destruct x as [a| | |]; try done. intros _. apply round_double_not_nan.
Qed.

Lemma js_or_zero_fin x b :
  x ≠ Js.NaN → Js.or_zero x = Js.Fin b → x = Js.Fin b.
Proof. destruct x as [[| |]| | |]; naive_solver. Qed.

(** ** Ledger reads after ledger writes, over numbers *)

Lemma js_matches_with_quantity pid wid it q :
  Js.matches pid wid (Js.with_quantity it q) ↔ Js.matches pid wid it.
Proof. done. Qed.

Lemma js_stock_item_write inv pid wid i it q :
  list_find (Js.matches pid wid) inv = Some (i, it) →
  Js.stock_item (<[i := Js.with_quantity it q]> inv) pid wid
  = Some (Js.with_quantity it q).
Proof.
  intros Hfind. unfold Js.stock_item.
  rewrite (list_find_overwrite_hit _ _ _ _ _ Hfind); [done|].
  by apply list_find_Some in Hfind as (_ & Hm & _).
Qed.

(** What an adjustment by an integer does when the quantity before is an
    integer and the sum is a safe integer. *)
Lemma js_adjust_stock_effect env s pid wid c logType text product warehouse b :
  find_product (Js.products s) pid = Some product →
  find_warehouse (Js.warehouses s) wid = Some warehouse →
  Js.quantityOf (Js.inventory s) pid wid = Js.Fin b →
  (∀ it, Js.stock_item (Js.inventory s) pid wid = Some it →
         Js.quantity it ≠ Js.NaN) →
  safe_integer (b + c) →
  let s' := Js.reducer env s (Js.ADJUST_STOCK pid wid (Js.Fin c) logType text) in
  Js.logs s'
  = Js.mkLogEntry (uuid env 0) (now env 0) (product_name product)
      (product_sku product) (warehouse_name warehouse) logType (Js.Fin c)
      (Js.Fin (Z.max 0 (b + c))) text (user_name (Js.currentUser s)) None
    :: Js.logs s
  ∧ Js.quantityOf (Js.inventory s') pid wid = Js.Fin (Z.max 0 (b + c)).
Proof.
  intros Hp Hw Hb Hnan Hsafe. cbn -[Js.max Js.add Js.ltb].
  unfold Js.adjust_stock. rewrite Hp, Hw.
  unfold Js.quantityOf, Js.stock_item in *.
  destruct (list_find (Js.matches pid wid) (Js.inventory s))
    as [[idx currentItem]|] eqn:Hfind; cbn -[Js.max Js.add Js.ltb] in *.
  - assert (Js.quantity currentItem = Js.Fin b) as ->
      by (apply js_or_zero_fin; [by apply Hnan|done]).
    unfold Js.add. rewrite round_double_safe by done.
    rewrite js_max_zero_fin. split; [done|].
    rewrite (list_find_overwrite_hit _ _ _ _ _ Hfind); simpl.
    + by destruct (Z.max 0 (b + c)).
    + by apply list_find_Some in Hfind as (_ & Hm & _).
  - injection Hb as <-. rewrite js_max_zero_fin. split; [done|].
    replace (0 + c) with c by lia. simpl.
    destruct (0 <? Z.max 0 c) eqn:Hpos; simpl.
    + rewrite (list_find_push_hit _ _ _ Hfind); [|done]. simpl.
      by destruct (Z.max 0 c).
    + rewrite Hfind. simpl. apply Z.ltb_ge in Hpos.
      by replace (Z.max 0 c) with 0 by lia.
Qed.

(** ** The ledger invariant and NaN *)

(** C1 (what the code does). Once the quantity field of the adjust modal has
    been cleared its state is NaN; NaN is not [=== 0], so [handleAdjust]
    dispatches it, and the reducer stores [Math.max(0, 25 + NaN)], which is
    NaN, as the quantity of p1 at w1.  The state is reachable and its ledger
    holds an entry whose quantity is not greater than or equal to zero. *)
Theorem js_adjust_nan_breaks_nonneg :
  let action :=
    Js.ADJUST_STOCK "p1" "w1" Js.NaN AJUSTE "Ajuste manual de stock." in
  let s' := Js.reducer sample_env (js_initialState sample_boot) action in
  Js.handleAdjust taladro "w1" Js.NaN AJUSTE "" = Some action
  ∧ js_reachable s'
  ∧ Js.stock_item (Js.inventory (js_initialState sample_boot)) "p1" "w1"
    = Some (Js.mkInventoryItem "p1" "w1" (Js.Fin 25))
  ∧ Js.stock_item (Js.inventory s') "p1" "w1"
    = Some (Js.mkInventoryItem "p1" "w1" Js.NaN)
  ∧ ¬ js_nonneg Js.NaN.
Proof.
  split_and!; [reflexivity| |reflexivity|reflexivity|discriminate].
  apply js_reachable_dispatch, js_reachable_initial.
Qed.

Lemma js_mockInventory_nonneg boot :
  Forall (λ it, js_nonneg (Js.quantity it))
    (Js.inventory (js_initialState boot)).
Proof.
  unfold js_initialState, embed_state. simpl.
  repeat (constructor; [reflexivity|]). constructor.
Qed.

Lemma js_reducer_finite_nonneg env s action :
  (∀ x, js_action_number action = Some x → ∃ z, x = Js.Fin z) →
  Forall (λ it, js_nonneg (Js.quantity it)) (Js.inventory s) →
  Forall (λ it, js_nonneg (Js.quantity it))
    (Js.inventory (Js.reducer env s action)).
Proof.
  intros Hfin Hinv. destruct action; try done.
  - simpl. apply Forall_forall. intros it [_ Hin]%list_elem_of_filter.
    by apply (proj1 (Forall_forall _ _) Hinv).
  - destruct (Hfin _ eq_refl) as [c ->]. cbn -[Js.max Js.add Js.ltb].
    unfold Js.adjust_stock.
    destruct (find_product _ _) as [product|]; [|done].
    destruct (find_warehouse _ _) as [warehouse|]; [|done].
    destruct (list_find _ (Js.inventory s)) as [[idx currentItem]|] eqn:Hfind;
      cbn -[Js.max Js.add Js.ltb].
    + apply Forall_insert; [done|]. cbn -[Js.max Js.add].
      apply js_max_zero_nonneg, js_add_fin_not_nan.
      apply list_find_Some in Hfind as (Hi & _).
      exact (Forall_lookup_1 _ _ _ _ Hinv Hi).
    + destruct (Js.ltb _ _); [|done]. apply Forall_app_2; [done|].
      repeat constructor. cbn -[Js.max]. by apply js_max_zero_nonneg.
  - destruct (Hfin _ eq_refl) as [n ->]. cbn -[Js.add Js.sub Js.ltb Js.leb].
    unfold Js.transfer_stock.
    destruct (find_product _ _) as [product|]; [|done].
    destruct (find_warehouse _ fromWarehouseId) as [fromWarehouse|]; [|done].
    destruct (find_warehouse _ toWarehouseId) as [toWarehouse|]; [|done].
    destruct (Js.leb (Js.Fin n) (Js.Fin 0)) eqn:Hpos; [done|].
    simpl in Hpos. apply Z.leb_gt in Hpos.
    destruct (list_find (Js.matches productId fromWarehouseId) _)
      as [[fromIdx fromItem]|] eqn:Hfrom; [|done].
    destruct (Js.ltb (Js.quantity fromItem) (Js.Fin n)) eqn:Hlt; [done|].
    assert (js_nonneg (Js.quantity fromItem)) as Hq.
    { apply list_find_Some in Hfrom as (Hi & _).
      exact (Forall_lookup_1 _ _ _ _ Hinv Hi). }
    assert (js_nonneg (Js.sub (Js.quantity fromItem) (Js.Fin n))) as Hsub.
    { destruct (Js.quantity fromItem) as [a| | |]; try done.
      simpl in Hlt. apply Z.ltb_ge in Hlt. apply round_double_nonneg. lia. }
    set (inv1 := <[fromIdx := _]> (Js.inventory s)).
    assert (Forall (λ it, js_nonneg (Js.quantity it)) inv1) as Hinv1
      by by apply Forall_insert.
    destruct (list_find (Js.matches productId toWarehouseId) inv1)
      as [[toIdx toItem]|] eqn:Hto; cbn -[Js.add].
    + apply Forall_insert; [done|]. cbn -[Js.add].
      apply list_find_Some in Hto as (Hj & _).
      assert (js_nonneg (Js.quantity toItem)) as Hqt
        by exact (Forall_lookup_1 _ _ _ _ Hinv1 Hj).
      destruct (Js.quantity toItem) as [b| | |]; try done.
      apply round_double_nonneg. unfold js_nonneg in Hqt. simpl in Hqt.
      apply Z.leb_le in Hqt. lia.
    + apply Forall_app_2; [done|]. repeat constructor.
      apply Z.leb_le. simpl. lia.
  - simpl. unfold Js.delete_user. by case_decide.
Qed.

(** X23. Over JavaScript numbers: when every dispatched ADJUST_STOCK and
    TRANSFER_STOCK carries a finite integer (never NaN or an infinity), every
    ledger quantity of every reachable state is greater than or equal to
    zero, also where an addition rounds or overflows. *)
Theorem js_finite_ledger_nonneg s :
  js_reachable_finite s →
  ∀ it, it ∈ Js.inventory s → Js.leb (Js.Fin 0) (Js.quantity it) = true.
Proof.
  intros Hreach. apply Forall_forall.
  induction Hreach as [boot|env s action _ IH Hfin].
  - apply js_mockInventory_nonneg.
  - by apply js_reducer_finite_nonneg.
Qed.

Lemma js_finite_ledger_nonneg_witness :
  let s' :=
    Js.reducer sample_env (js_initialState sample_boot)
      (Js.ADJUST_STOCK "p2" "w1" (Js.Fin (2 ^ 53)) ENTRADA "") in
  js_reachable_finite s'
  ∧ Js.mkInventoryItem "p2" "w1" (Js.Fin (2 ^ 53 + 8)) ∈ Js.inventory s'
  ∧ Js.leb (Js.Fin 0) (Js.Fin (2 ^ 53 + 8)) = true.
Proof.
  assert (js_reachable_finite
            (Js.reducer sample_env (js_initialState sample_boot)
               (Js.ADJUST_STOCK "p2" "w1" (Js.Fin (2 ^ 53)) ENTRADA "")))
    as Hreach.
  { apply js_finite_dispatch; [apply js_finite_initial|].
    intros x [= <-]. by eexists. }
  assert (Js.mkInventoryItem "p2" "w1" (Js.Fin (2 ^ 53 + 8))
            ∈ Js.inventory
                (Js.reducer sample_env (js_initialState sample_boot)
                   (Js.ADJUST_STOCK "p2" "w1" (Js.Fin (2 ^ 53)) ENTRADA "")))
    as Hin by (vm_compute; repeat constructor).
  split_and!; [exact Hreach|exact Hin|].
  exact (js_finite_ledger_nonneg _ Hreach _ Hin).
Defined.

(** ** Adjustments over numbers *)

(** C6, as stated, fails: with 8 units of p2 at w1, an adjustment of -10 leaves
    0 units, an actual change of -8, while the log entry records -10. *)
Lemma js_adjust_log_change_counterexample :
  let s := js_initialState sample_boot in
  let s' := Js.reducer sample_env s
              (Js.ADJUST_STOCK "p2" "w1" (Js.Fin (-10)) SALIDA "merma") in
  Js.quantityOf (Js.inventory s) "p2" "w1" = Js.Fin 8
  ∧ Js.quantityOf (Js.inventory s') "p2" "w1" = Js.Fin 0
  ∧ ∃ newLog,
      Js.logs s' = newLog :: Js.logs s
      ∧ Js.quantityChange newLog = Js.Fin (-10)
      ∧ Js.newQuantityInWarehouse newLog = Js.Fin 0
      ∧ Js.quantityChange newLog
        ≠ Js.sub (Js.newQuantityInWarehouse newLog)
            (Js.quantityOf (Js.inventory s) "p2" "w1").
Proof.
  split_and!; [reflexivity..|]. eexists. split; [reflexivity|].
  split_and!; [reflexivity..|]. vm_compute. discriminate.
Qed.

(** C6 (amended). For an adjustment by an integer change, when the quantity
    before is an integer (the entry, if there is one, does not hold NaN) and
    their sum is a safe integer (below 2^53 in magnitude, so that the addition
    is exact): the log entry added records the requested change and, as new
    quantity, the ledger quantity after the operation, which is the larger of
    zero and the previous quantity plus the change.  The recorded change
    equals the actual ledger change exactly when the previous quantity plus
    the change is not negative; otherwise the quantity is clamped to zero and
    the log still records the requested change. *)
Theorem js_adjust_stock_log_change env s pid wid change logType text
    product warehouse before :
  find_product (Js.products s) pid = Some product →
  find_warehouse (Js.warehouses s) wid = Some warehouse →
  Js.quantityOf (Js.inventory s) pid wid = Js.Fin before →
  (∀ it, Js.stock_item (Js.inventory s) pid wid = Some it →
         Js.quantity it ≠ Js.NaN) →
  safe_integer (before + change) →
  let s' :=
    Js.reducer env s (Js.ADJUST_STOCK pid wid (Js.Fin change) logType text) in
  ∃ newLog after,
    Js.logs s' = newLog :: Js.logs s
    ∧ Js.quantityChange newLog = Js.Fin change
    ∧ Js.newQuantityInWarehouse newLog = Js.Fin after
    ∧ Js.quantityOf (Js.inventory s') pid wid = Js.Fin after
    ∧ after = Z.max 0 (before + change)
    ∧ (change = after - before ↔ 0 ≤ before + change).
Proof.
  intros Hp Hw Hb Hnan Hsafe s'.
  destruct (js_adjust_stock_effect env s pid wid change logType text _ _ _
              Hp Hw Hb Hnan Hsafe) as (Hlogs & Hq).
  eexists _, (Z.max 0 (before + change)). split; [exact Hlogs|].
  split_and!; [done|done|exact Hq|done|lia].
Qed.

Lemma js_adjust_stock_log_change_witness :
  let s := js_initialState sample_boot in
  let s' := Js.reducer sample_env s
              (Js.ADJUST_STOCK "p1" "w1" (Js.Fin 30) ENTRADA "compra") in
  ∃ newLog,
    Js.logs s' = newLog :: Js.logs s
    ∧ Js.quantityChange newLog = Js.Fin 30
    ∧ Js.newQuantityInWarehouse newLog = Js.Fin 55.
Proof.
  destruct (js_adjust_stock_log_change sample_env
              (js_initialState sample_boot) "p1" "w1" 30 ENTRADA "compra"
              _ _ 25 eq_refl eq_refl eq_refl
              ltac:(intros it [= <-]; discriminate)
              ltac:(unfold safe_integer; lia))
    as (newLog & after & Hlogs & Hchange & Hnew & _ & Hafter & _).
  exists newLog. split_and!; [exact Hlogs|exact Hchange|].
  rewrite Hnew, Hafter. reflexivity.
Defined.

(** ** The integer model inside the model over numbers *)

Lemma list_find_embed pid wid (inv : list InventoryItem) :
  list_find (Js.matches pid wid) (embed_item <$> inv)
  = prod_map id embed_item <$> list_find (matches pid wid) inv.
Proof.
  induction inv as [|x inv IH]; [done|]. csimpl.
  destruct (decide (Js.matches pid wid (embed_item x))) as [Hm|Hm];
    destruct (decide (matches pid wid x)) as [Hm'|Hm']; try done.
  rewrite IH. by destruct (list_find (matches pid wid) inv).
Qed.

Lemma filter_embed pid (inv : list InventoryItem) :
  filter (λ i, Js.productId i ≠ pid) (embed_item <$> inv)
  = embed_item <$> filter (λ i, item_productId i ≠ pid) inv.
Proof.
  induction inv as [|x inv IH]; [done|]. csimpl.
  rewrite !filter_cons. simpl.
  destruct (decide (item_productId x ≠ pid)); csimpl; by rewrite IH.
Qed.

Lemma embed_with_quantity it q :
  embed_item (with_quantity it q) = Js.with_quantity (embed_item it) (Js.Fin q).
Proof. done. Qed.

Lemma js_add_safe a b :
  safe_integer (a + b) → Js.add (Js.Fin a) (Js.Fin b) = Js.Fin (a + b).
Proof. intros Hsafe. simpl. by apply round_double_safe. Qed.

Lemma js_sub_safe a b :
  safe_integer (a - b) → Js.sub (Js.Fin a) (Js.Fin b) = Js.Fin (a - b).
Proof.
  intros Hsafe. unfold Js.sub. simpl.
  replace (a + - b) with (a - b) by lia. by apply round_double_safe.
Qed.

Lemma js_adjust_stock_refines env s pid wid change logType text :
  safe_step s (ADJUST_STOCK pid wid change logType text) →
  Js.adjust_stock env (embed_state s) pid wid (Js.Fin change) logType text
  = embed_state (adjust_stock env s pid wid change logType text).
Proof.
  intros Hsafe. unfold Js.adjust_stock, adjust_stock. simpl in Hsafe.
  cbn -[Js.max Js.add Js.ltb Z.max find_product find_warehouse].
  destruct (find_product _ _) as [product|]; [|done].
  destruct (find_warehouse _ _) as [warehouse|]; [|done].
  rewrite list_find_embed.
  destruct (list_find (matches pid wid) (inventory s))
    as [[idx currentItem]|] eqn:Hfind; cbn -[Js.max Js.add Js.ltb Z.max].
  - apply list_find_Some in Hfind as (Hi & _).
    pose proof (Forall_lookup_1 _ _ _ _ Hsafe Hi) as Hs. simpl in Hs.
    rewrite (js_add_safe _ _ Hs), js_max_zero_fin.
    unfold embed_state. simpl. by rewrite list_fmap_insert.
  - rewrite js_max_zero_fin. cbn -[Z.max].
    unfold embed_state.
    destruct (decide (0 < Z.max 0 change)) as [Hpos|Hpos].
    + rewrite (proj2 (Z.ltb_lt _ _) Hpos). simpl. by rewrite fmap_app.
    + by rewrite (proj2 (Z.ltb_ge 0 (Z.max 0 change)) ltac:(lia)).
Qed.

Lemma js_transfer_stock_refines env s pid fromId toId amount text :
  safe_step s (TRANSFER_STOCK pid fromId toId amount text) →
  Js.transfer_stock env (embed_state s) pid fromId toId (Js.Fin amount) text
  = embed_state (transfer_stock env s pid fromId toId amount text).
Proof.
  intros Hsafe. unfold Js.transfer_stock, transfer_stock. simpl in Hsafe.
  cbn -[Js.add Js.sub find_product find_warehouse].
  destruct (find_product _ _) as [product|]; [|done].
  destruct (find_warehouse _ fromId) as [fromWarehouse|]; [|done].
  destruct (find_warehouse _ toId) as [toWarehouse|]; [|done].
  destruct (decide (amount ≤ 0)) as [Hle|Hpos].
  { by rewrite (proj2 (Z.leb_le _ _) Hle). }
  rewrite (proj2 (Z.leb_gt amount 0) ltac:(lia)).
  rewrite list_find_embed.
  destruct (list_find (matches pid fromId) (inventory s))
    as [[fromIdx fromItem]|] eqn:Hfrom; [|done].
  cbn -[Js.add Js.sub].
  destruct (decide (item_quantity fromItem < amount)) as [Hlt|Hge].
  { by rewrite (proj2 (Z.ltb_lt _ _) Hlt). }
  rewrite (proj2 (Z.ltb_ge (item_quantity fromItem) amount) ltac:(lia)).
  pose proof Hfrom as Hfrom'.
  apply list_find_Some in Hfrom' as (Hi & _).
  pose proof (Forall_lookup_1 _ _ _ _ Hsafe Hi) as [Hs Hs']. simpl in Hs, Hs'.
  rewrite (js_sub_safe _ _ Hs).
  change (Js.with_quantity (embed_item fromItem)
            (Js.Fin (item_quantity fromItem - amount)))
    with (embed_item (with_quantity fromItem (item_quantity fromItem - amount))).
  rewrite <- list_fmap_insert, list_find_embed.
  destruct (list_find (matches pid toId) _) as [[toIdx toItem]|] eqn:Hto;
    cbn -[Js.add Js.sub].
  - apply list_find_Some in Hto as (Hj & _).
    assert (safe_integer (item_quantity toItem + amount)) as Ht.
    { destruct (decide (toIdx = fromIdx)) as [->|Hne].
      - rewrite list_lookup_insert_eq in Hj
          by (by eapply lookup_lt_Some). simplify_eq/=.
        unfold safe_integer in *. lia.
      - rewrite list_lookup_insert_ne in Hj by done.
        by destruct (Forall_lookup_1 _ _ _ _ Hsafe Hj). }
    rewrite (js_add_safe _ _ Ht). unfold embed_state. simpl.
    by rewrite !list_fmap_insert.
  - unfold embed_state. simpl. by rewrite fmap_app.
Qed.

(** X24. The integer model is the model over numbers restricted to safe
    integers: when the additions a dispatched action performs on the ledger
    stay below 2^53 in magnitude, the reducer over numbers, run on an
    integer state and an integer payload, returns the state the integer
    reducer returns. *)
Theorem js_reducer_refines env s action :
  safe_step s action →
  Js.reducer env (embed_state s) (embed_action action)
  = embed_state (reducer env s action).
Proof.
  intros Hsafe. destruct action; try done.
  - unfold embed_state. simpl. f_equal.
    rewrite fmap_app, fmap_imap. done.
  - unfold embed_state, Js.reducer, Js.delete_product. simpl. f_equal.
    apply filter_embed.
  - by apply js_adjust_stock_refines.
  - by apply js_transfer_stock_refines.
  - simpl. unfold Js.delete_user, delete_user. simpl. by case_decide.
Qed.

Lemma js_reducer_refines_witness :
  Js.reducer sample_env (embed_state s0)
    (embed_action (TRANSFER_STOCK "p1" "w1" "w2" 5 "reposición"))
  = embed_state
      (reducer sample_env s0 (TRANSFER_STOCK "p1" "w1" "w2" 5 "reposición")).
Proof.
  apply (js_reducer_refines sample_env s0
           (TRANSFER_STOCK "p1" "w1" "w2" 5 "reposición")).
  simpl. unfold safe_integer.
  repeat (constructor; [simpl; lia|]). constructor.
Defined.

(** ** The adjust modal over numbers *)

(** X17. An adjustment confirmed in the adjust modal with an integer in the
    quantity field, for an existing product and warehouse whose quantity
    before is a non-negative integer (the entry, if there is one, does not
    hold NaN) and with the sum of that quantity and the absolute amount a
    safe integer: for the types ENTRADA and AJUSTE the quantity at the
    warehouse grows by exactly the absolute value of the amount typed; for
    SALIDA it drops by that amount but not below zero.  The log entry added
    has the chosen type, a non-zero change that is negative exactly for
    SALIDA, and non-empty details. *)
Theorem js_handleAdjust_applied env s product wid change logType text action
    found warehouse before :
  Js.handleAdjust product wid (Js.Fin change) logType text = Some action →
  find_product (Js.products s) (product_id product) = Some found →
  find_warehouse (Js.warehouses s) wid = Some warehouse →
  Js.quantityOf (Js.inventory s) (product_id product) wid = Js.Fin before →
  (∀ it, Js.stock_item (Js.inventory s) (product_id product) wid = Some it →
         Js.quantity it ≠ Js.NaN) →
  0 ≤ before →
  safe_integer (before + Z.abs change) →
  let s' := Js.reducer env s action in
  Js.quantityOf (Js.inventory s') (product_id product) wid
  = Js.Fin (if decide (logType = SALIDA) then Z.max 0 (before - Z.abs change)
            else before + Z.abs change)
  ∧ ∃ newLog logged,
      Js.logs s' = newLog :: Js.logs s
      ∧ Js.type newLog = logType
      ∧ Js.quantityChange newLog = Js.Fin logged
      ∧ logged ≠ 0
      ∧ (logType = SALIDA ↔ logged < 0)
      ∧ Js.details newLog ≠ "".
Proof.
  intros Hdispatch Hp Hw Hb Hnan Hbefore Hsafe s'.
  unfold Js.handleAdjust in Hdispatch. simpl in Hdispatch.
  destruct (change =? 0) eqn:Hzero; [done|]. apply Z.eqb_neq in Hzero.
  destruct (bool_decide (wid = "")); [done|]. simpl in Hdispatch.
  injection Hdispatch as <-. subst s'.
  set (logged := if decide (logType = SALIDA) then - Z.abs change
                 else Z.abs change).
  assert ((if decide (logType = SALIDA) then Js.Fin (- Z.abs change)
           else Js.Fin (Z.abs change)) = Js.Fin logged) as ->
    by (unfold logged; by destruct (decide (logType = SALIDA))).
  assert (safe_integer (before + logged)) as Hsafe'.
  { unfold logged, safe_integer in *.
    destruct (decide (logType = SALIDA)); lia. }
  destruct (js_adjust_stock_effect env s (product_id product) wid logged
              logType
              (if decide (text = "") then "Ajuste manual de stock." else text)
              _ _ _ Hp Hw Hb Hnan Hsafe') as (Hlogs & Hq).
  rewrite Hq. split.
  - f_equal. unfold logged. destruct (decide (logType = SALIDA)); lia.
  - eexists _, logged. split; [exact Hlogs|]. simpl.
    unfold logged. split_and!; [done|done| | |].
    + destruct (decide (logType = SALIDA)); lia.
    + destruct (decide (logType = SALIDA)); split; try done; lia.
    + by destruct (decide (text = "")).
Qed.

Lemma js_handleAdjust_applied_witness :
  let s := js_initialState sample_boot in
  let action :=
    Js.ADJUST_STOCK "p2" "w1" (Js.Fin (-20)) SALIDA "Ajuste manual de stock." in
  Js.handleAdjust (with_product_id taladro "p2") "w1" (Js.Fin 20) SALIDA ""
  = Some action
  ∧ Js.quantityOf (Js.inventory s) "p2" "w1" = Js.Fin 8
  ∧ Js.quantityOf (Js.inventory (Js.reducer sample_env s action)) "p2" "w1"
    = Js.Fin 0.
Proof.
  pose proof (js_handleAdjust_applied sample_env (js_initialState sample_boot)
                (with_product_id taladro "p2") "w1" 20 SALIDA "" _ _ _ 8
                eq_refl eq_refl eq_refl eq_refl
                ltac:(intros it [= <-]; discriminate) ltac:(lia)
                ltac:(unfold safe_integer; lia)) as (Hq & _).
  split_and!; [reflexivity|reflexivity|exact Hq].
Defined.

(** X25. A cleared quantity field: the adjust modal dispatches NaN for every
    movement type as soon as a warehouse is selected, and the reducer, for an
    existing product and warehouse with a ledger entry, stores NaN as the
    quantity of that entry and logs NaN as change and as new quantity. *)
Theorem js_handleAdjust_nan env s product wid logType text found warehouse
    idx currentItem :
  wid ≠ "" →
  find_product (Js.products s) (product_id product) = Some found →
  find_warehouse (Js.warehouses s) wid = Some warehouse →
  list_find (Js.matches (product_id product) wid) (Js.inventory s)
  = Some (idx, currentItem) →
  ∃ action,
    Js.handleAdjust product wid Js.NaN logType text = Some action
    ∧ Js.stock_item (Js.inventory (Js.reducer env s action))
        (product_id product) wid
      = Some (Js.with_quantity currentItem Js.NaN)
    ∧ ∃ newLog,
        Js.logs (Js.reducer env s action) = newLog :: Js.logs s
        ∧ Js.quantityChange newLog = Js.NaN
        ∧ Js.newQuantityInWarehouse newLog = Js.NaN.
Proof.
  intros Hwid Hp Hw Hfind.
  exists (Js.ADJUST_STOCK (product_id product) wid Js.NaN logType
            (if decide (text = "") then "Ajuste manual de stock." else text)).
  split.
  { unfold Js.handleAdjust. simpl. rewrite bool_decide_eq_false_2 by done.
    by destruct (decide (logType = SALIDA)). }
  cbn -[Js.max Js.add Js.ltb]. unfold Js.adjust_stock.
  rewrite Hp, Hw, Hfind. cbn -[Js.max Js.add Js.ltb].
  assert (Js.max (Js.Fin 0) (Js.add (Js.quantity currentItem) Js.NaN) = Js.NaN)
    as -> by by destruct (Js.quantity currentItem).
  split; [by apply js_stock_item_write|]. by eexists.
Qed.

Lemma js_handleAdjust_nan_witness :
  ∃ action,
    Js.handleAdjust taladro "w1" Js.NaN ENTRADA "" = Some action
    ∧ Js.stock_item
        (Js.inventory
           (Js.reducer sample_env (js_initialState sample_boot) action))
        "p1" "w1"
      = Some (Js.mkInventoryItem "p1" "w1" Js.NaN).
Proof.
  destruct (js_handleAdjust_nan sample_env (js_initialState sample_boot)
              taladro "w1" ENTRADA "" _ _ 0%nat
              (Js.mkInventoryItem "p1" "w1" (Js.Fin 25))
              ltac:(discriminate) eq_refl eq_refl eq_refl)
    as (action & Hdispatch & Hstock & _).
  exists action. split; [exact Hdispatch|exact Hstock].
Defined.

(** * Bulk transfer and purchase-order receipt as specified *)

(** ** The ledger primitive *)

Lemma applyDelta_effect inv pid wid delta :
  (applyDelta inv pid wid delta).1 = Z.max 0 (quantityOf inv pid wid + delta)
  ∧ ∀ pid' wid',
      quantityOf (applyDelta inv pid wid delta).2 pid' wid'
      = if decide ((pid', wid') = (pid, wid))
        then Z.max 0 (quantityOf inv pid wid + delta)
        else quantityOf inv pid' wid'.
Proof.
  unfold applyDelta.
  destruct (list_find (matches pid wid) inv) as [[index entry]|] eqn:Hfind;
    cbn -[Z.max Z.add quantityOf].
  - rewrite (quantityOf_found _ _ _ _ _ Hfind). split; [done|].
    intros pid' wid'. by rewrite (quantityOf_write _ _ _ _ _ _ _ _ Hfind).
  - rewrite (quantityOf_absent _ _ _ Hfind). split; [done|].
    intros pid' wid'. case_decide as Hpos; cbn -[Z.max Z.add quantityOf].
    + by rewrite (quantityOf_push _ _ _ _ _ _ Hfind).
    + case_decide as Hkey; [|done]. simplify_eq.
      rewrite (quantityOf_absent _ _ _ Hfind). lia.
Qed.

Lemma applyDelta_nonneg inv pid wid delta :
  ledger_nonneg inv → ledger_nonneg (applyDelta inv pid wid delta).2.
Proof.
  intros Hinv. unfold applyDelta.
  destruct (list_find (matches pid wid) inv) as [[index entry]|];
    cbn -[Z.max Z.add].
  - apply Forall_insert; [done|]. simpl. lia.
  - case_decide; [|done]. apply Forall_app_2; [done|].
    repeat constructor. simpl. lia.
Qed.

Lemma find_product_id ps pid product :
  find_product ps pid = Some product → product_id product = pid.
Proof.
  unfold find_product. intros Hfind.
  destruct (list_find _ ps) as [[i p]|] eqn:Hp; simplify_eq/=.
  by apply list_find_Some in Hp as (_ & ? & _).
Qed.

Lemma find_warehouse_id ws wid warehouse :
  find_warehouse ws wid = Some warehouse → warehouse_id warehouse = wid.
Proof.
  unfold find_warehouse. intros Hfind.
  destruct (list_find _ ws) as [[i w]|] eqn:Hw; simplify_eq/=.
  by apply list_find_Some in Hw as (_ & ? & _).
Qed.

(** X26. The ADJUST_STOCK case of the reducer is the ledger primitive of the
    specification followed by one log entry: for an existing product and
    warehouse, the ledger after the adjustment is the one [applyDelta]
    returns, and the log entry added records the change and the quantity
    [applyDelta] returns, without a transactionId. *)
Theorem adjust_stock_is_applyDelta env s pid wid change type details
    product warehouse :
  find_product (products s) pid = Some product →
  find_warehouse (warehouses s) wid = Some warehouse →
  let s' := reducer env s (ADJUST_STOCK pid wid change type details) in
  inventory s' = (applyDelta (inventory s) pid wid change).2
  ∧ logs s'
    = mkLogEntry (uuid env 0) (now env 0) (product_name product)
        (product_sku product) (warehouse_name warehouse) type change
        (applyDelta (inventory s) pid wid change).1 details
        (user_name (currentUser s)) None
      :: logs s.
Proof.
  intros Hp Hw. simpl. unfold adjust_stock, applyDelta. rewrite Hp, Hw.
  by destruct (list_find (matches pid wid) (inventory s)) as [[index entry]|].
Qed.

Lemma adjust_stock_is_applyDelta_witness :
  let s' := reducer sample_env s0 (ADJUST_STOCK "p4" "w1" 7 ENTRADA "compra") in
  inventory s' = inventory s0 ++ [mkInventoryItem "p4" "w1" 7].
Proof.
  exact (proj1 (adjust_stock_is_applyDelta sample_env s0 "p4" "w1" 7 ENTRADA
                  "compra" _ _ eq_refl eq_refl)).
Defined.

(** ** Bulk transfer: validation *)

Lemma check_items_ready s fromId items :
  Forall (item_ready s fromId) items →
  ∃ lines,
    check_items s fromId items = Done lines
    ∧ Forall2 (λ item line,
                 find_product (products s) (bulk_productId item) = Some line.1
                 ∧ line.2 = bulk_quantity item)
        items lines.
Proof.
  induction 1 as [|item rest (Hp & Hpos & Hle) _ (lines & Hlines & Hall)].
  - exists []. split; [done|constructor].
  - destruct Hp as [product Hp].
    exists ((product, bulk_quantity item) :: lines).
    simpl. unfold check_item. rewrite Hp, decide_False by lia.
    unfold quantityOf in Hle.
    destruct (stock_item _ _ _) as [entry|]; simpl in Hle; [|lia].
    rewrite decide_False by lia. rewrite Hlines. split; [done|].
    by constructor.
Qed.

Lemma check_items_short s fromId items :
  Exists (item_short s fromId) items →
  ∃ error,
    check_items s fromId items = Rejected error
    ∧ (Forall (λ item,
                 is_Some (find_product (products s) (bulk_productId item))
                 ∧ 0 < bulk_quantity item) items →
       error = InsufficientStockError).
Proof.
  induction items as [|item rest IH]; intros Hex;
    [by apply Exists_nil in Hex|].
  simpl. destruct (check_item s fromId item) as [line|error] eqn:Hitem.
  - apply Exists_cons in Hex as [Hshort|Hex].
    + exfalso. unfold check_item, item_short in *.
      destruct (find_product _ _); [|done]. case_decide; [done|].
      destruct (stock_item _ _ _); [|done]. by case_decide.
    + destruct (IH Hex) as (error & -> & Herr). exists error.
      split; [done|]. intros Hwf. apply Herr.
      by apply Forall_cons in Hwf as [_ ?].
  - exists error. split; [done|]. intros Hwf.
    apply Forall_cons in Hwf as [[[product Hp] Hpos] _].
    unfold check_item in Hitem. rewrite Hp in Hitem.
    rewrite decide_False in Hitem by lia.
    destruct (stock_item _ _ _); [case_decide|]; by simplify_eq.
Qed.
(** ** Bulk transfer: the mutation pass *)

Section transfer_lines.
Context (env : Env) (transactionId : string).
Context (fromWarehouse toWarehouse : Warehouse) (details actor : string).
Context (Hdiffer : warehouse_id fromWarehouse ≠ warehouse_id toWarehouse).

Lemma transfer_lines_effect lines : ∀ k inv,
  ledger_nonneg inv →
  NoDup ((λ line : Product * Z, product_id line.1) <$> lines) →
  Forall (λ line : Product * Z,
            0 < line.2
            ∧ line.2 ≤ quantityOf inv (product_id line.1)
                         (warehouse_id fromWarehouse)) lines →
  let result :=
    transfer_lines env transactionId fromWarehouse toWarehouse details actor
      k lines inv in
  ∃ pairs,
    result.2 = flat_map (λ pair : LogEntry * LogEntry, [pair.1; pair.2]) pairs
    ∧ Forall2 (λ line : Product * Z,
                 transfer_logged transactionId fromWarehouse toWarehouse
                   result.1 line.1 line.2) lines pairs
    ∧ ledger_nonneg result.1
    ∧ (∀ line, line ∈ lines →
         quantityOf result.1 (product_id line.1) (warehouse_id fromWarehouse)
         = quantityOf inv (product_id line.1) (warehouse_id fromWarehouse)
           - line.2
         ∧ quantityOf result.1 (product_id line.1) (warehouse_id toWarehouse)
           = quantityOf inv (product_id line.1) (warehouse_id toWarehouse)
             + line.2)
    ∧ (∀ pid wid,
         pid ∉ (λ line : Product * Z, product_id line.1) <$> lines
         ∨ (wid ≠ warehouse_id fromWarehouse ∧ wid ≠ warehouse_id toWarehouse) →
         quantityOf result.1 pid wid = quantityOf inv pid wid).
Proof.
  induction lines as [|[product quantity] rest IH]; intros k inv Hinv Hnodup Hall.
  - exists []. simpl. split_and!; [done|constructor|done| |done].
    intros line Hin. by apply elem_of_nil in Hin.
  - rewrite fmap_cons in Hnodup. apply NoDup_cons in Hnodup as [Hfresh Hnodup].
    apply Forall_cons in Hall as [[Hpos Hle] Hall].
    cbn [fst snd] in Hfresh, Hpos, Hle.
    set (fromId := warehouse_id fromWarehouse) in *.
    set (toId := warehouse_id toWarehouse) in *.
    set (pid := product_id product) in *.
    cbn [transfer_lines]. fold fromId toId pid.
    pose proof (applyDelta_effect inv pid fromId (- quantity)) as [Hq1 Hr1].
    pose proof (applyDelta_nonneg inv pid fromId (- quantity) Hinv) as Hn1.
    destruct (applyDelta inv pid fromId (- quantity)) as [finalFrom inv1].
    cbn [fst snd] in Hq1, Hr1, Hn1.
    pose proof (applyDelta_effect inv1 pid toId quantity) as [Hq2 Hr2].
    pose proof (applyDelta_nonneg inv1 pid toId quantity Hn1) as Hn2.
    destruct (applyDelta inv1 pid toId quantity) as [finalTo inv2].
    cbn [fst snd] in Hq2, Hr2, Hn2.
    assert (quantityOf inv1 pid toId = quantityOf inv pid toId) as Hto1.
    { rewrite Hr1, decide_False; [done|]. intros [= ?]. by apply Hdiffer. }
    pose proof (quantityOf_nonneg inv pid toId Hinv) as Hto0.
    assert (∀ pid' wid',
              quantityOf inv2 pid' wid'
              = if decide (pid' = pid)
                then (if decide (wid' = fromId)
                      then quantityOf inv pid fromId - quantity
                      else if decide (wid' = toId)
                           then quantityOf inv pid toId + quantity
                           else quantityOf inv pid wid')
                else quantityOf inv pid' wid') as Hinv2.
    { intros pid' wid'. rewrite Hr2, Hto1, Hr1.
      repeat case_decide; simplify_eq; try done; try lia. }
    assert (∀ line : Product * Z, line ∈ rest → product_id line.1 ≠ pid)
      as Hother.
    { intros line Hin Heq. apply Hfresh. rewrite <- Heq.
      apply list_elem_of_fmap. by exists line. }
    destruct (IH (S k) inv2 Hn2 Hnodup)
      as (pairs & Hlogs & Hlogged & Hn & Hmoved & Hkept).
    { apply Forall_forall. intros line Hin.
      destruct (proj1 (Forall_forall _ _) Hall line Hin) as [? ?].
      split; [done|]. rewrite Hinv2, decide_False; [done|].
      by apply Hother. }
    destruct (transfer_lines env transactionId fromWarehouse toWarehouse
                details actor (S k) rest inv2) as [inv' newLogs].
    cbn [fst snd] in *.
    assert (quantityOf inv' pid fromId = quantityOf inv pid fromId - quantity)
      as Hfrom'.
    { rewrite (Hkept pid fromId) by by left.
      rewrite Hinv2. by rewrite !decide_True. }
    assert (quantityOf inv' pid toId = quantityOf inv pid toId + quantity)
      as Hto'.
    { rewrite (Hkept pid toId) by by left.
      by rewrite Hinv2, decide_True, decide_False, decide_True. }
    eexists ((_, _) :: pairs). split_and!.
    + simpl. by rewrite Hlogs.
    + constructor; [|done]. unfold transfer_logged. cbn [fst snd].
      fold fromId toId pid. simpl. rewrite Hfrom', Hto', Hq1, Hq2, Hto1.
      split_and!; try done; lia.
    + done.
    + intros line [->|Hin]%elem_of_cons; [done|].
      destruct (Hmoved line Hin) as [-> ->].
      pose proof (Hother line Hin) as Hne.
      rewrite !Hinv2. by destruct (decide (product_id line.1 = pid)).
    + intros pid' wid' Hside. rewrite Hkept.
      * rewrite Hinv2. destruct Hside as [Hside|[? ?]].
        -- rewrite decide_False; [done|]. intros ->. apply Hside.
           rewrite fmap_cons. apply elem_of_cons. by left.
        -- case_decide; [|done]. subst pid'.
           rewrite decide_False by done. by rewrite decide_False.
      * destruct Hside as [Hside|?]; [left|by right].
        intros Hin. apply Hside. rewrite fmap_cons. apply elem_of_cons.
        by right.
Qed.
End transfer_lines.

Lemma lines_product_ids ps items (lines : list (Product * Z)) :
  Forall2 (λ item line,
             find_product ps (bulk_productId item) = Some line.1
             ∧ line.2 = bulk_quantity item) items lines →
  (λ line : Product * Z, product_id line.1) <$> lines
  = bulk_productId <$> items.
Proof.
  induction 1 as [|item line items lines [Hp _] _ IH]; [done|].
  rewrite !fmap_cons, IH. f_equal. by apply find_product_id in Hp.
Qed.



(** ** Purchase-order receipt *)

Lemma check_lines_ready s items :
  Forall (λ item, is_Some (find_product (products s) (poitem_productId item)))
    items →
  ∃ lines,
    check_lines s items = Done lines
    ∧ Forall2 (λ item line,
                 find_product (products s) (poitem_productId item)
                 = Some line.1
                 ∧ line.2 = poitem_quantity item)
        items lines.
Proof.
  induction 1 as [|item rest [product Hp] _ (lines & Hlines & Hall)].
  - exists []. split; [done|constructor].
  - exists ((product, poitem_quantity item) :: lines). simpl.
    rewrite Hp, Hlines. split; [done|]. by constructor.
Qed.

Lemma received_ordered_quantity ps items (lines : list (Product * Z)) pid :
  Forall2 (λ item line,
             find_product ps (poitem_productId item) = Some line.1
             ∧ line.2 = poitem_quantity item) items lines →
  received_quantity lines pid = ordered_quantity items pid.
Proof.
  induction 1 as [|item line items lines [Hp Hq] _ IH]; [done|].
  simpl. rewrite IH, Hq, (find_product_id _ _ _ Hp). done.
Qed.

Lemma receive_lines_effect env transactionId warehouse details actor lines :
  ∀ k inv,
  ledger_nonneg inv →
  Forall (λ line : Product * Z, 0 < line.2) lines →
  let result :=
    receive_lines env transactionId warehouse details actor k lines inv in
  ledger_nonneg result.1
  ∧ (∀ pid wid,
       quantityOf result.1 pid wid
       = quantityOf inv pid wid
         + (if decide (wid = warehouse_id warehouse)
            then received_quantity lines pid else 0))
  ∧ Forall2 (λ line : Product * Z,
               receipt_logged transactionId warehouse line.1 line.2)
      lines result.2.
Proof.
  induction lines as [|[product quantity] rest IH]; intros k inv Hinv Hall.
  - simpl. split_and!; [done| |constructor].
    intros pid wid. case_decide; lia.
  - apply Forall_cons in Hall as [Hpos Hall]. cbn [fst snd] in Hpos.
    cbn [receive_lines].
    pose proof (applyDelta_effect inv (product_id product)
                  (warehouse_id warehouse) quantity) as [Hq1 Hr1].
    pose proof (applyDelta_nonneg inv (product_id product)
                  (warehouse_id warehouse) quantity Hinv) as Hn1.
    destruct (applyDelta inv (product_id product) (warehouse_id warehouse)
                quantity) as [newQuantity inv1].
    cbn [fst snd] in Hq1, Hr1, Hn1.
    destruct (IH (S k) inv1 Hn1 Hall) as (Hn & Hquantities & Hlogged).
    destruct (receive_lines env transactionId warehouse details actor (S k)
                rest inv1) as [inv' newLogs].
    cbn [fst snd] in *.
    pose proof (quantityOf_nonneg inv (product_id product)
                  (warehouse_id warehouse) Hinv) as Hcur.
    split_and!; [done| |by constructor].
    intros pid wid. rewrite Hquantities, Hr1. simpl.
    repeat case_decide; simplify_eq; try done; try lia.
Qed.



(** ** What the reducer of the sources does with these actions *)

(** X27. The reducer has no case for the actions of the bulk-transfer modal
    and of the purchase-order view: whatever [handleConfirmTransfer],
    [handleStatusChange] or [handleReceiveOrder] dispatch, and for any other
    tag, the state returned is the state given. *)
Theorem unhandled_actions_ignored env s :
  (∀ itemsToTransfer fromId toId details action,
     handleConfirmTransfer itemsToTransfer fromId toId details = Some action →
     reducer env s action = s)
  ∧ (∀ poId status, reducer env s (handleStatusChange poId status) = s)
  ∧ (∀ confirmed po action,
       handleReceiveOrder confirmed po = Some action →
       reducer env s action = s)
  ∧ (∀ tag, reducer env s (OTHER_ACTION tag) = s).
Proof.
  split_and!.
  - intros itemsToTransfer fromId toId details action Hdispatch.
    unfold handleConfirmTransfer in Hdispatch.
    case_decide; [done|]. injection Hdispatch as <-.
    apply reducer_default_bulk_transfer.
  - intros poId status. apply reducer_default_purchase_order.
  - intros [|] po action Hdispatch; [|done]. injection Hdispatch as <-.
    apply reducer_default_purchase_order.
  - done.
Qed.

Lemma unhandled_actions_ignored_witness :
  handleConfirmTransfer
    [mkItemToTransfer taladro 5 25; mkItemToTransfer martillo 20 80]
    "w1" "w2" ""
  = Some (BULK_TRANSFER_STOCK [mkBulkItem "p1" 5; mkBulkItem "p3" 20] "w1" "w2"
            "Transferencia de 2 productos.")
  ∧ reducer sample_env s0
      (BULK_TRANSFER_STOCK [mkBulkItem "p1" 5; mkBulkItem "p3" 20] "w1" "w2"
         "Transferencia de 2 productos.")
    = s0.
Proof.
  split; [reflexivity|].
  exact (proj1 (unhandled_actions_ignored sample_env s0)
           [mkItemToTransfer taladro 5 25; mkItemToTransfer martillo 20 80]
           "w1" "w2" "" _ eq_refl).
Defined.

(** ** A cleared quantity field in the transfer modal *)

(** X28. A cleared quantity field in the transfer modal: the state of the
    field is NaN, [handleTransfer] dispatches it for two different selected
    warehouses (NaN is not [<= 0]), and the reducer, for an existing product
    and warehouses with a source entry, passes both of its guards, stores NaN
    as the quantity of the source entry and of the destination entry, and
    adds two log entries. *)
Theorem js_transfer_nan env s product fromId toId text found fromWarehouse
    toWarehouse fromIdx fromItem :
  fromId ≠ "" → toId ≠ "" → fromId ≠ toId →
  find_product (Js.products s) (product_id product) = Some found →
  find_warehouse (Js.warehouses s) fromId = Some fromWarehouse →
  find_warehouse (Js.warehouses s) toId = Some toWarehouse →
  list_find (Js.matches (product_id product) fromId) (Js.inventory s)
  = Some (fromIdx, fromItem) →
  ∃ action,
    Js.handleTransfer product fromId toId Js.NaN text = Some action
    ∧ Js.stock_item (Js.inventory (Js.reducer env s action))
        (product_id product) fromId
      = Some (Js.with_quantity fromItem Js.NaN)
    ∧ (∃ toItem,
         Js.stock_item (Js.inventory (Js.reducer env s action))
           (product_id product) toId = Some toItem
         ∧ Js.quantity toItem = Js.NaN)
    ∧ length (Js.logs (Js.reducer env s action)) = S (S (length (Js.logs s))).
Proof.
  intros Hfrom0 Hto0 Hne Hp Hwf Hwt Hfrom.
  exists (Js.TRANSFER_STOCK (product_id product) fromId toId Js.NaN
            (if decide (text = "") then "Transferencia entre almacenes."
             else text)).
  split.
  { unfold Js.handleTransfer. simpl.
    by rewrite !bool_decide_eq_false_2. }
  set (pid := product_id product) in *.
  cbn -[Js.add Js.sub Js.ltb Js.leb]. unfold Js.transfer_stock.
  rewrite Hp, Hwf, Hwt, Hfrom. cbn -[Js.add Js.sub].
  assert (Js.ltb (Js.quantity fromItem) Js.NaN = false) as ->
    by by destruct (Js.quantity fromItem).
  assert (Js.sub (Js.quantity fromItem) Js.NaN = Js.NaN) as ->
    by by destruct (Js.quantity fromItem).
  set (inv1 := <[fromIdx := Js.with_quantity fromItem Js.NaN]> (Js.inventory s)).
  assert (list_find (Js.matches pid fromId) inv1
          = Some (fromIdx, Js.with_quantity fromItem Js.NaN)) as Hfrom1.
  { apply (list_find_overwrite_hit _ _ _ _ _ Hfrom).
    by apply list_find_Some in Hfrom as (_ & ? & _). }
  destruct (list_find (Js.matches pid toId) inv1) as [[toIdx toItem]|] eqn:Hto;
    cbn -[Js.add Js.sub].
  - assert (Js.add (Js.quantity toItem) Js.NaN = Js.NaN) as ->
      by by destruct (Js.quantity toItem).
    pose proof Hto as (Hj & Hmt & _)%list_find_Some.
    split_and!; [|exists (Js.with_quantity toItem Js.NaN); split; [|done]|done].
    + unfold Js.stock_item.
      rewrite (list_find_overwrite_miss _ _ _ _ _ Hj); [by rewrite Hfrom1| |].
      * intros [_ Hw]. destruct Hmt as [_ Hw']. apply Hne. by rewrite <- Hw.
      * intros [_ Hw]. destruct Hmt as [_ Hw']. simpl in Hw. apply Hne.
        by rewrite <- Hw.
    + unfold Js.stock_item.
      by rewrite (list_find_overwrite_hit _ _ _ _ _ Hto).
  - split_and!;
      [|exists (Js.mkInventoryItem pid toId Js.NaN); split; [|done]|done].
    + unfold Js.stock_item. rewrite list_find_push_miss; [by rewrite Hfrom1|].
      intros [_ Hw]. simpl in Hw. by apply Hne.
    + unfold Js.stock_item. by rewrite (list_find_push_hit _ _ _ Hto).
Qed.

Lemma js_transfer_nan_witness :
  ∃ action,
    Js.handleTransfer taladro "w1" "w2" Js.NaN "" = Some action
    ∧ Js.stock_item
        (Js.inventory
           (Js.reducer sample_env (js_initialState sample_boot) action))
        "p1" "w1"
      = Some (Js.mkInventoryItem "p1" "w1" Js.NaN).
Proof.
  destruct (js_transfer_nan sample_env (js_initialState sample_boot) taladro
              "w1" "w2" "" _ _ _ 0%nat
              (Js.mkInventoryItem "p1" "w1" (Js.Fin 25))
              ltac:(discriminate) ltac:(discriminate) ltac:(discriminate)
              eq_refl eq_refl eq_refl eq_refl)
    as (action & Hdispatch & Hstock & _).
  exists action. split; [exact Hdispatch|exact Hstock].
Defined.
